(** * pytest-qgis: the helper functions of [pytest_qgis/utils.py]

    The module is a set of free functions that orchestrate calls into the
    QGIS object model: the project singleton, its layer registry, its layer
    tree, coordinate transforms, the processing framework, GDAL, the test
    request and the Qt event loop.  The functions are embedded as
    computations over an explicit world state.

    What the toolkit does is taken as follows.
    - A layer reference is the layer's id; the live layer objects form a
      heap, and a wrapper whose object is gone raises when it is used.
    - The registry iterates in the order of its keys; it accepts invalid
      layers; [mapLayers(validOnly=True)] leaves them out.
    - [addMapLayer] of an id that is registered changes nothing; with
      [addToLegend] a newly registered layer gets a node at the top of the
      root group.  Removing a layer drops its registry entry and the first
      tree node that refers to it; the object is released later.
    - A layer node shows its layer's current name.
    - [combineExtentWith] is the union of bounding boxes; coordinates and
      clock readings are rationals; fixture names are ASCII.
    - Services whose results the module cannot know (transform,
      reprojection, warp, raster loading, style saving, the clock) are the
      fields of a [Toolkit] record and may fail where the toolkit may. *)

From Stdlib Require Import QArith Qminmax Lqa Ascii String.
From stdpp Require Import gmap strings list.

Set Warnings "-register-all".

Local Open Scope string_scope.
Local Open Scope list_scope.

(** ** Data model *)

Module Qgis.

(** A coordinate reference system is identified by its authority id; the
    default-constructed, invalid CRS has the empty id. *)
Record QgsCoordinateReferenceSystem : Type := Crs { authid : string }.

Definition crs_eqb (a b : QgsCoordinateReferenceSystem) : bool :=
  String.eqb (authid a) (authid b).

Definition crs_isValid (c : QgsCoordinateReferenceSystem) : bool :=
  negb (String.eqb (authid c) "").

(** Rectangles: the four bounds are doubles in the toolkit; they are only
    compared and copied here, and are taken in [Q]. *)
Record QgsRectangle : Type := Rect {
  xMinimum : Q;
  yMinimum : Q;
  xMaximum : Q;
  yMaximum : Q
}.

(** [combineExtentWith]: expands the rectangle so that it covers both the
    receiver and the argument. *)
Definition combineExtentWith (r other : QgsRectangle) : QgsRectangle :=
  {| xMinimum := Qmin (xMinimum r) (xMinimum other);
     yMinimum := Qmin (yMinimum r) (yMinimum other);
     xMaximum := Qmax (xMaximum r) (xMaximum other);
     yMaximum := Qmax (yMaximum r) (yMaximum other) |}.

(** [covers R r]: rectangle [R] contains rectangle [r]. *)
Definition covers (R r : QgsRectangle) : Prop :=
  (xMinimum R <= xMinimum r)%Q /\ (yMinimum R <= yMinimum r)%Q /\
  (xMaximum r <= xMaximum R)%Q /\ (yMaximum r <= yMaximum R)%Q.

(** The classes the module tells apart with [isinstance]. *)
Inductive LayerType : Type := VectorLayer | RasterLayer | OtherLayer.

#[global] Instance LayerType_eq_dec : EqDecision LayerType.
Proof. solve_decision. Defined.

Definition Style : Type := string.
Definition Metadata : Type := list (string * string).

Record QgsMapLayer : Type := Layer {
  id : string;
  name : string;
  layerType : LayerType;
  crs : QgsCoordinateReferenceSystem;
  extent : QgsRectangle;
  source : string;
  style : Style;
  metadata : Metadata;
  isValid : bool;
  isSpatial : bool
}.

Definition setCrs (c : QgsCoordinateReferenceSystem) (l : QgsMapLayer) : QgsMapLayer :=
  {| id := id l; name := name l; layerType := layerType l; crs := c;
     extent := extent l; source := source l; style := style l;
     metadata := metadata l; isValid := isValid l; isSpatial := isSpatial l |}.

Definition setStyle (s : Style) (l : QgsMapLayer) : QgsMapLayer :=
  {| id := id l; name := name l; layerType := layerType l; crs := crs l;
     extent := extent l; source := source l; style := s;
     metadata := metadata l; isValid := isValid l; isSpatial := isSpatial l |}.

Definition setMetadata (m : Metadata) (l : QgsMapLayer) : QgsMapLayer :=
  {| id := id l; name := name l; layerType := layerType l; crs := crs l;
     extent := extent l; source := source l; style := style l;
     metadata := m; isValid := isValid l; isSpatial := isSpatial l |}.

Definition setName (n : string) (l : QgsMapLayer) : QgsMapLayer :=
  {| id := id l; name := n; layerType := layerType l; crs := crs l;
     extent := extent l; source := source l; style := style l;
     metadata := metadata l; isValid := isValid l; isSpatial := isSpatial l |}.

(** Layer tree: a layer node refers to its layer by id and remembers a name
    for the time the reference does not resolve; a group has a name and an
    ordered list of children. *)
Inductive QgsLayerTreeNode : Type :=
| QgsLayerTreeLayer (layerId : string) (layerName : string)
| QgsLayerTreeGroup (groupName : string) (children : list QgsLayerTreeNode).

(** What the module is seen to do from outside: the mutating calls on the
    project, the fixture resolutions and the event-loop pumps, in order. *)
Inductive Call : Type :=
| AddMapLayer (layerId : string) (addToLegend : bool)
| RemoveMapLayers (layerIds : list string)
| SetCrs (c : QgsCoordinateReferenceSystem)
| GetFixtureValue (fixture_name : string)
| ProcessEvents.

(** The world: the live layer objects (a layer reference is the layer's id),
    the project singleton (registry in iteration order, working CRS, children
    of the layer-tree root), the scratch files holding saved styles, the
    number of clock readings taken so far and the log of calls. *)
Record World : Type := mkWorld {
  objects : gmap string QgsMapLayer;
  mapLayerIds : list string;
  projectCrs : QgsCoordinateReferenceSystem;
  layerTreeRoot : list QgsLayerTreeNode;
  files : gmap string Style;
  clockReads : nat;
  calls : list Call
}.

Definition with_objects (o : gmap string QgsMapLayer) (w : World) : World :=
  mkWorld o (mapLayerIds w) (projectCrs w) (layerTreeRoot w) (files w)
          (clockReads w) (calls w).
Definition with_mapLayerIds (r : list string) (w : World) : World :=
  mkWorld (objects w) r (projectCrs w) (layerTreeRoot w) (files w)
          (clockReads w) (calls w).
Definition with_projectCrs (c : QgsCoordinateReferenceSystem) (w : World) : World :=
  mkWorld (objects w) (mapLayerIds w) c (layerTreeRoot w) (files w)
          (clockReads w) (calls w).
Definition with_layerTreeRoot (t : list QgsLayerTreeNode) (w : World) : World :=
  mkWorld (objects w) (mapLayerIds w) (projectCrs w) t (files w)
          (clockReads w) (calls w).
Definition with_files (f : gmap string Style) (w : World) : World :=
  mkWorld (objects w) (mapLayerIds w) (projectCrs w) (layerTreeRoot w) f
          (clockReads w) (calls w).
Definition with_clockReads (n : nat) (w : World) : World :=
  mkWorld (objects w) (mapLayerIds w) (projectCrs w) (layerTreeRoot w) (files w)
          n (calls w).
Definition log (c : Call) (w : World) : World :=
  mkWorld (objects w) (mapLayerIds w) (projectCrs w) (layerTreeRoot w) (files w)
          (clockReads w) (calls w ++ [c]).

(** Toolkit services whose results are not determined by the module.  Each
    may depend on the whole world at the time of the call. *)
Record Toolkit : Type := mkToolkit {
  (** [QgsCoordinateTransform(in, out, project).transformBoundingBox(r)];
      [None] when the transform raises. *)
  transformBoundingBox :
    World -> QgsCoordinateReferenceSystem -> QgsCoordinateReferenceSystem ->
    QgsRectangle -> option QgsRectangle;
  (** [processing.run("native:reprojectlayer", ...)["OUTPUT"]] for an input
      layer and a target CRS; [None] when the algorithm raises. *)
  reprojectlayer :
    World -> QgsMapLayer -> QgsCoordinateReferenceSystem -> option QgsMapLayer;
  (** [gdal.Warp(dst, src, dstSRS=...)]: [false] when it raises. *)
  gdal_Warp : World -> string -> string -> string -> bool;
  (** [QgsRasterLayer(path)]. *)
  QgsRasterLayer_new : World -> string -> QgsMapLayer;
  (** the success flag of [layer.saveNamedStyle(path)]. *)
  saveNamedStyle_succeeds : World -> QgsMapLayer -> string -> bool;
  (** the successive readings of [time.time()], in seconds. *)
  time_time : nat -> Q
}.

(** What a fixture resolves to: a wrapper of a map layer, or anything else. *)
Inductive FixtureValue : Type :=
| LayerValue (layer : string)
| OtherValue.

End Qgis.
Export Qgis.

(** ** Computations: state passing with exceptions that keep the state *)

Inductive PyError : Type :=
| AssertionError
| AttributeError
| KeyError
| RuntimeError
| ToolkitError.

Inductive Outcome (A : Type) : Type :=
| Returned (a : A)
| Raised (e : PyError).
Arguments Returned {A} a.
Arguments Raised {A} e.

Definition M (A : Type) : Type := World -> Outcome A * World.

Definition ret {A} (a : A) : M A := fun w => (Returned a, w).
Definition raise {A} (e : PyError) : M A := fun w => (Raised e, w).
Definition bind {A B} (m : M A) (k : A -> M B) : M B :=
  fun w => match m w with
           | (Returned a, w') => k a w'
           | (Raised e, w') => (Raised e, w')
           end.
Definition get : M World := fun w => (Returned w, w).
Definition modify (f : World -> World) : M unit := fun w => (Returned tt, f w).

Declare Scope py_scope.
Delimit Scope py_scope with py.
Notation "x <- c1 ;; c2" := (bind c1 (fun x => c2))
  (at level 100, c1 at next level, right associativity) : py_scope.
Notation "c1 ;;; c2" := (bind c1 (fun _ => c2))
  (at level 100, right associativity) : py_scope.
Local Open Scope py_scope.

(** [for x in xs: body x] *)
Fixpoint for_each {A} (xs : list A) (body : A -> M unit) : M unit :=
  match xs with
  | [] => ret tt
  | x :: rest => body x ;;; for_each rest body
  end.

(** The world a computation leaves and the value it returns. *)
Definition exec {A} (m : M A) (w : World) : World := snd (m w).
Definition outcome {A} (m : M A) (w : World) : Outcome A := fst (m w).

(** [acc = init; for x in xs: acc = body acc x] *)
Fixpoint fold_each {A B} (xs : list A) (body : B -> A -> M B) (acc : B) : M B :=
  match xs with
  | [] => ret acc
  | x :: rest => acc' <- body acc x ;; fold_each rest body acc'
  end.

(** ** The toolkit's project, registry and layer tree *)

Module Project.

(** A layer reference is dereferenced at each attribute access; a wrapper
    whose object is gone raises. *)
Definition deref (lid : string) : M QgsMapLayer :=
  fun w => match objects w !! lid with
           | Some l => (Returned l, w)
           | None => (Raised RuntimeError, w)
           end.

Definition update_layer (lid : string) (f : QgsMapLayer -> QgsMapLayer) : M unit :=
  modify (fun w => with_objects (alter f lid (objects w)) w).

(** [QgsProject.instance().mapLayers(validOnly)]: the keys, in iteration
    order, and the values. *)
Definition mapLayers_keys (validOnly : bool) (w : World) : list string :=
  List.filter
    (fun i => match objects w !! i with
              | Some l => if validOnly then isValid l else true
              | None => false
              end)
    (mapLayerIds w).

Definition mapLayers (validOnly : bool) (w : World) : list QgsMapLayer :=
  omap (fun i => objects w !! i) (mapLayers_keys validOnly w).

(** The registry iterates in the order of its keys. *)
Fixpoint registry_insert (i : string) (ids : list string) : list string :=
  match ids with
  | [] => [i]
  | j :: rest =>
      if String.eqb i j then ids
      else if String.ltb i j then i :: ids
      else j :: registry_insert i rest
  end.

Definition registered (i : string) (w : World) : bool :=
  bool_decide (i ∈ mapLayerIds w).

(** Name shown by a tree node: the layer's current name while the reference
    resolves, the remembered one otherwise. *)
Definition node_name (w : World) (n : QgsLayerTreeNode) : string :=
  match n with
  | QgsLayerTreeLayer i stored =>
      match objects w !! i with Some l => name l | None => stored end
  | QgsLayerTreeGroup g _ => g
  end.

Fixpoint first_some {A B} (f : nat -> A -> option B) (xs : list A) (k : nat) : option B :=
  match xs with
  | [] => None
  | x :: rest => match f k x with
                 | Some b => Some b
                 | None => first_some f rest (S k)
                 end
  end.

(** [group.findLayer(layer)]: depth-first, children in order.  The result is
    the path of child indices from the group down to the parent of the node
    found, and the index of the node among that parent's children. *)
Fixpoint findLayer_below (lid : string) (n : QgsLayerTreeNode) : option (list nat * nat) :=
  match n with
  | QgsLayerTreeLayer _ _ => None
  | QgsLayerTreeGroup _ cs =>
      first_some
        (fun k c =>
           match c with
           | QgsLayerTreeLayer i _ => if String.eqb i lid then Some ([], k) else None
           | QgsLayerTreeGroup _ _ =>
               match findLayer_below lid c with
               | Some (p, i) => Some (k :: p, i)
               | None => None
               end
           end) cs 0
  end.

Definition findLayer (lid : string) (root : list QgsLayerTreeNode) : option (list nat * nat) :=
  findLayer_below lid (QgsLayerTreeGroup "" root).

(** Children of the group reached from the root by a path of child indices. *)
Fixpoint children_at (p : list nat) (cs : list QgsLayerTreeNode) : option (list QgsLayerTreeNode) :=
  match p with
  | [] => Some cs
  | k :: p' =>
      match cs !! k with
      | Some (QgsLayerTreeGroup _ sub) => children_at p' sub
      | _ => None
      end
  end.

(** Rewrite the children of the group at a path. *)
Fixpoint update_at (p : list nat) (f : list QgsLayerTreeNode -> list QgsLayerTreeNode)
    (cs : list QgsLayerTreeNode) : list QgsLayerTreeNode :=
  match p with
  | [] => f cs
  | k :: p' =>
      match cs !! k with
      | Some (QgsLayerTreeGroup g sub) => <[k := QgsLayerTreeGroup g (update_at p' f sub)]> cs
      | _ => cs
      end
  end.

(** [insertChildNode(index, node)]: an index outside [0, count) appends. *)
Definition insertChildNode (index : nat) (n : QgsLayerTreeNode)
    (cs : list QgsLayerTreeNode) : list QgsLayerTreeNode :=
  if Nat.ltb index (length cs) then take index cs ++ n :: drop index cs else cs ++ [n].

Definition removeChildNode (index : nat) (cs : list QgsLayerTreeNode) : list QgsLayerTreeNode :=
  take index cs ++ drop (S index) cs.

(** [QgsProject.instance().addMapLayer(layer, addToLegend)]: a layer whose id
    is already registered is left alone; a newly registered one gets, when
    [addToLegend] is set, a node at the top of the root group. *)
Definition addMapLayer (lid : string) (addToLegend : bool) : M unit :=
  l <- deref lid ;;
  modify (fun w =>
    let w := log (AddMapLayer lid addToLegend) w in
    if registered lid w then w
    else
      let w := with_mapLayerIds (registry_insert lid (mapLayerIds w)) w in
      if addToLegend
      then with_layerTreeRoot (QgsLayerTreeLayer lid (name l) :: layerTreeRoot w) w
      else w).

(** Unregistering one layer: the registry entry goes, and so does the first
    tree node that refers to the layer.  The layer object itself is released
    later by the toolkit, not here. *)
Definition unregister (lid : string) (w : World) : World :=
  if registered lid w then
    let w := with_mapLayerIds (List.filter (fun j => negb (String.eqb j lid)) (mapLayerIds w)) w in
    match findLayer lid (layerTreeRoot w) with
    | Some (p, k) => with_layerTreeRoot (update_at p (removeChildNode k) (layerTreeRoot w)) w
    | None => w
    end
  else w.

(** [QgsProject.instance().removeMapLayers(ids)] *)
Definition removeMapLayers (lids : list string) : M unit :=
  modify (fun w => fold_left (fun w i => unregister i w) lids (log (RemoveMapLayers lids) w)).

(** [QgsProject.instance().removeMapLayer(layer)] *)
Definition removeMapLayer (lid : string) : M unit := removeMapLayers [lid].

(** [QgsProject.instance().setCrs(crs)] *)
Definition setProjectCrs (c : QgsCoordinateReferenceSystem) : M unit :=
  modify (fun w => with_projectCrs c (log (SetCrs c) w)).

(** A layer object handed over by the toolkit comes to life under its id. *)
Definition allocate (l : QgsMapLayer) : M string :=
  fun w => (Returned (id l), with_objects (<[id l := l]> (objects w)) w).

(** [layer.id()] *)
Definition layer_id (lid : string) : M string :=
  _ <- deref lid ;; ret lid.

(** A setter called on a layer wrapper. *)
Definition call_setter (lid : string) (f : QgsMapLayer -> QgsMapLayer) : M unit :=
  _ <- deref lid ;; update_layer lid f.

(** [layer.loadNamedStyle(path)]: the style in the file becomes the layer's;
    a missing file leaves the layer as it is (the returned flag is not
    looked at by the module). *)
Definition loadNamedStyle (lid : string) (path : string) : M unit :=
  _ <- deref lid ;;
  w <- get ;;
  match files w !! path with
  | Some s => update_layer lid (setStyle s)
  | None => ret tt
  end.

(** [enumerate(xs)] *)
Definition enumerate {A} (xs : list A) : list (nat * A) :=
  zip (seq 0 (length xs)) xs.

(** [{child.name(): i for i, child in enumerate(children)}] *)
Definition name_index (w : World) (cs : list QgsLayerTreeNode) : gmap string nat :=
  fold_left (fun d ic => <[node_name w ic.2 := ic.1]> d) (enumerate cs) ∅.

(** [group.insertLayer(index, layer)] for the group at path [p]. *)
Definition insertLayer (p : list nat) (index : nat) (lid : string) : M unit :=
  l <- deref lid ;;
  modify (fun w =>
    with_layerTreeRoot
      (update_at p (insertChildNode index (QgsLayerTreeLayer lid (name l)))
                 (layerTreeRoot w)) w).

End Project.

(** ** The module *)

Definition DEFAULT_RASTER_FORMAT : string := "tif".
Definition DEFAULT_CRS : QgsCoordinateReferenceSystem := Crs "EPSG:4326".
Definition LAYER_KEYWORDS : list string := ["layer"; "lyr"; "raster"; "rast"; "tif"].

Section Utils.

Variable tk : Toolkit.

Definition transform_rectangle (rectangle : QgsRectangle)
    (in_crs out_crs : QgsCoordinateReferenceSystem) : M QgsRectangle :=
  if crs_eqb in_crs out_crs then ret rectangle
  else
    w <- get ;;
    match transformBoundingBox tk w in_crs out_crs rectangle with
    | Some r => ret r
    | None => raise ToolkitError
    end.

Definition get_common_extent_from_all_layers : M (option QgsRectangle) :=
  w <- get ;;
  let map_crs := projectCrs w in
  let layers := Project.mapLayers true w in
  match layers with
  | layer0 :: rest =>
      extent0 <- transform_rectangle (extent layer0) (crs layer0) map_crs ;;
      extent' <- fold_each rest
                   (fun acc layer =>
                      r <- transform_rectangle (extent layer) (crs layer) map_crs ;;
                      ret (combineExtentWith acc r))
                   extent0 ;;
      ret (Some extent')
  | [] => ret None
  end.

(** [Counter(xs)]: keys in the order they were first met. *)
Fixpoint counter_incr (k : string) (c : list (string * nat)) : list (string * nat) :=
  match c with
  | [] => [(k, 1)]
  | (k', n) :: rest =>
      if String.eqb k k' then (k', S n) :: rest
      else (k', n) :: counter_incr k rest
  end.

Definition Counter (xs : list string) : list (string * nat) :=
  fold_left (fun c k => counter_incr k c) xs [].

(** [counter.most_common(1)[0]] on a counter that is not empty: the maximum
    by count, the first one met among equals. *)
Definition most_common_first (first : string * nat) (rest : list (string * nat)) : string * nat :=
  fold_left (fun best y => if Nat.ltb best.2 y.2 then y else best) rest first.

Definition set_map_crs_based_on_layers : M unit :=
  w <- get ;;
  let crs_counter :=
    Counter (List.map (fun layer => authid (crs layer))
               (List.filter isSpatial (Project.mapLayers false w))) in
  let crs :=
    match crs_counter with
    | first :: rest => let '(crs_id, _) := most_common_first first rest in Crs crs_id
    | [] => DEFAULT_CRS
    end in
  Project.setProjectCrs crs.

Definition get_layers_with_different_crs : M (list string) :=
  w <- get ;;
  let map_crs := projectCrs w in
  ret (List.filter
         (fun layer => match objects w !! layer with
                       | Some l => negb (crs_eqb (crs l) map_crs)
                       | None => false
                       end)
         (Project.mapLayers_keys false w)).

(** [layer.saveNamedStyle(path)]: on success the file holds the layer's
    style; the flag is returned. *)
Definition saveNamedStyle (lid : string) (path : string) : M bool :=
  l <- Project.deref lid ;;
  w <- get ;;
  if saveNamedStyle_succeeds tk w l path
  then modify (fun w => with_files (<[path := style l]> (files w)) w) ;;; ret true
  else ret false.

Definition copy_layer_style_and_position (layer1 layer2 : string) (tmp_path : string) : M unit :=
  layer1_id <- Project.layer_id layer1 ;;
  let style_file := tmp_path +:+ "/" +:+ layer1_id +:+ ".qml" in
  succeeded <- saveNamedStyle layer1 style_file ;;
  (if succeeded : bool then Project.loadNamedStyle layer2 style_file else ret tt) ;;;
  l1 <- Project.deref layer1 ;;
  Project.call_setter layer2 (setMetadata (metadata l1)) ;;;
  l1 <- Project.deref layer1 ;;
  Project.call_setter layer2 (setName (name l1)) ;;;
  l2 <- Project.deref layer2 ;;
  (if isValid l2 then Project.addMapLayer layer2 false else ret tt) ;;;
  w <- get ;;
  let root := layerTreeRoot w in
  match Project.findLayer layer1 root with
  | None => raise AttributeError
  | Some (group, k) =>
      match Project.children_at group root with
      | None => raise RuntimeError
      | Some children =>
          match children !! k with
          | None => raise RuntimeError
          | Some layer_tree_layer =>
              match Project.name_index w children !! Project.node_name w layer_tree_layer with
              | None => raise KeyError
              | Some index => Project.insertLayer group (index + 1) layer2
              end
          end
      end
  end.

(** [[layer for layer in layers if isinstance(layer, cls) and layer.isSpatial()]] *)
Fixpoint spatial_of_type (t : LayerType) (layers : list string) : M (list string) :=
  match layers with
  | [] => ret []
  | layer :: rest =>
      l <- Project.deref layer ;;
      kept <- spatial_of_type t rest ;;
      ret (if bool_decide (layerType l = t) && isSpatial l then layer :: kept else kept)
  end.

Fixpoint layer_ids (layers : list string) : M (list string) :=
  match layers with
  | [] => ret []
  | layer :: rest =>
      i <- Project.layer_id layer ;;
      ids <- layer_ids rest ;;
      ret (i :: ids)
  end.

Definition replace_layers_with_reprojected_clones (layers : list string) (output_path : string) : M unit :=
  vector_layers <- spatial_of_type VectorLayer layers ;;
  raster_layers <- spatial_of_type RasterLayer layers ;;
  w <- get ;;
  let map_crs := projectCrs w in
  for_each vector_layers (fun input_layer =>
    l <- Project.deref input_layer ;;
    w <- get ;;
    match reprojectlayer tk w l map_crs with
    | None => raise ToolkitError
    | Some out =>
        output_layer <- Project.allocate out ;;
        o <- Project.deref output_layer ;;
        (if negb (crs_isValid (crs o))
         then Project.call_setter output_layer (setCrs map_crs) else ret tt) ;;;
        copy_layer_style_and_position input_layer output_layer output_path
    end) ;;;
  for_each raster_layers (fun input_layer =>
    l <- Project.deref input_layer ;;
    let output_raster := output_path +:+ "/" +:+ name l +:+ "." +:+ DEFAULT_RASTER_FORMAT in
    w <- get ;;
    if gdal_Warp tk w output_raster (source l) (authid map_crs) then
      w <- get ;;
      output_layer <- Project.allocate (QgsRasterLayer_new tk w output_raster) ;;
      o <- Project.deref output_layer ;;
      (if negb (crs_isValid (crs o))
       then Project.call_setter output_layer (setCrs map_crs) else ret tt) ;;;
      copy_layer_style_and_position input_layer output_layer output_path
    else raise ToolkitError) ;;;
  ids <- layer_ids layers ;;
  Project.removeMapLayers ids.

(** The test request: the active fixture names, and what each resolves to.
    [Raised AssertionError] is the answer for a fixture the test never
    requested. *)
Record FixtureRequest : Type := mkRequest {
  fixturenames : list string;
  fixturevalue : string -> Outcome FixtureValue
}.

(** [request.getfixturevalue(name)] *)
Definition getfixturevalue (request : FixtureRequest) (fixture_name : string) : M FixtureValue :=
  fun w => (fixturevalue request fixture_name, log (GetFixtureValue fixture_name) w).

(** [str.lower()], on ASCII names. *)
Definition lower_ascii (c : ascii) : ascii :=
  let n := nat_of_ascii c in
  if Nat.leb 65 n && Nat.leb n 90 then ascii_of_nat (n + 32) else c.

Fixpoint lower (s : string) : string :=
  match s with
  | EmptyString => EmptyString
  | String c rest => String (lower_ascii c) (lower rest)
  end.

(** [sub in s] *)
Fixpoint contains (s sub : string) : bool :=
  String.prefix sub s ||
  match s with
  | EmptyString => false
  | String _ rest => contains rest sub
  end.

(** [any(k in fixture_name.lower() for k in LAYER_KEYWORDS)] *)
Definition has_layer_keyword (fixture_name : string) : bool :=
  existsb (fun possible_layer_name => contains (lower fixture_name) possible_layer_name)
          LAYER_KEYWORDS.

Definition _set_layer_owner_to_project (layer : FixtureValue) : M unit :=
  match layer with
  | LayerValue lid =>
      w <- get ;;
      if bool_decide (is_Some (objects w !! lid))
         && negb (bool_decide (lid ∈ Project.mapLayers_keys true w))
      then Project.addMapLayer lid true ;;; Project.removeMapLayer lid
      else ret tt
  | OtherValue => ret tt
  end.

(** [try: v = getfixturevalue(name) except AssertionError: continue] *)
Definition ensure_one (request : FixtureRequest) (fixture_name : string) : M unit :=
  if has_layer_keyword fixture_name then
    fun w =>
      match getfixturevalue request fixture_name w with
      | (Raised AssertionError, w') => (Returned tt, w')
      | (Raised e, w') => (Raised e, w')
      | (Returned layer, w') => _set_layer_owner_to_project layer w'
      end
  else ret tt.

Definition ensure_qgis_layer_fixtures_are_cleaned (request : FixtureRequest) : M unit :=
  for_each (fixturenames request) (ensure_one request).

(** [time.time()]: the next reading of the clock. *)
Definition time (w : World) : Q * World :=
  (time_time tk (clockReads w), with_clockReads (S (clockReads w)) w).

(** [QCoreApplication.processEvents()] *)
Definition processEvents (w : World) : World := log ProcessEvents w.

Definition Qltb (a b : Q) : bool := negb (Qle_bool b a).

(** [while (time.time() - start) * 1000 < wait_time_milliseconds:
      QCoreApplication.processEvents()]; [None] when the fuel does not see
    the loop end. *)
Fixpoint wait_loop (fuel : nat) (start : Q) (wait_time_milliseconds : Z) (w : World) : option World :=
  match fuel with
  | O => None
  | S fuel' =>
      let (now, w) := time w in
      if Qltb ((now - start) * 1000) (inject_Z wait_time_milliseconds)
      then wait_loop fuel' start wait_time_milliseconds (processEvents w)
      else Some w
  end.

Definition wait (fuel : nat) (wait_time_milliseconds : Z) (w : World) : option World :=
  let (start, w) := time w in
  wait_loop fuel start wait_time_milliseconds w.

End Utils.

(** ** Vocabulary of the statements *)

(** Number of event-loop pumps in the log. *)
Definition pumps (w : World) : nat :=
  length (List.filter (fun c => match c with ProcessEvents => true | _ => false end) (calls w)).

(** The extent of a layer brought into the project CRS, as
    [get_common_extent_from_all_layers] asks for it. *)
Definition reprojected_extent (tk : Toolkit) (w : World) (layer : QgsMapLayer) : Outcome QgsRectangle :=
  outcome (transform_rectangle tk (extent layer) (crs layer) (projectCrs w)) w.

(** Number of times [k] occurs in [xs]. *)
Fixpoint occurrences (k : string) (xs : list string) : nat :=
  match xs with
  | [] => 0
  | x :: rest => (if String.eqb x k then 1 else 0) + occurrences k rest
  end.

(** [a] is a most frequent element of [xs], and the first met among the
    most frequent: everything met before [a] is strictly less frequent. *)
Definition most_frequent_first_met (a : string) (xs : list string) : Prop :=
  (forall b, occurrences b xs <= occurrences a xs) /\
  exists pre post,
    xs = pre ++ a :: post /\ (a ∉ pre) /\
    forall b, b ∈ pre -> occurrences b xs < occurrences a xs.

(** The CRS ids that take part in the vote of [set_map_crs_based_on_layers]. *)
Definition spatial_authids (w : World) : list string :=
  List.map (fun layer => authid (crs layer))
    (List.filter isSpatial (Project.mapLayers false w)).

(** The distinct elements of a list, in the order they are first met. *)
Definition uniq (xs : list string) : list string :=
  fold_left (fun acc k => if bool_decide (k ∈ acc) then acc else acc ++ [k]) xs [].

(** What [findLayer] asks of the child at position [k] of a group. *)
Definition probe (lid : string) (k : nat) (c : QgsLayerTreeNode) : option (list nat * nat) :=
  match c with
  | QgsLayerTreeLayer i _ => if String.eqb i lid then Some ([], k) else None
  | QgsLayerTreeGroup _ _ =>
      match Project.findLayer_below lid c with
      | Some (p, i) => Some (k :: p, i)
      | None => None
      end
  end.

(** [i] is the position of the last child named [nm]. *)
Definition last_named (w : World) (cs : list QgsLayerTreeNode) (nm : string) (i : nat) : Prop :=
  (exists c, cs !! i = Some c /\ Project.node_name w c = nm) /\
  forall j c, i < j -> cs !! j = Some c -> Project.node_name w c <> nm.

(** The scratch file [copy_layer_style_and_position] saves the style of
    [layer1] to. *)
Definition style_file (tmp_path layer1 : string) : string :=
  tmp_path +:+ "/" +:+ layer1 +:+ ".qml".

(** What the target object of [copy_layer_style_and_position] becomes: the
    source's style when saving it succeeded, the source's metadata and name. *)
Definition styled (succeeded : bool) (l1 l2 : QgsMapLayer) : QgsMapLayer :=
  setName (name l1) (setMetadata (metadata l1)
    (if succeeded then setStyle (style l1) l2 else l2)).

(** The world once [copy_layer_style_and_position] has copied style,
    metadata and name and registered a valid target, before it turns to the
    layer tree. *)
Definition copied (tk : Toolkit) (layer1 layer2 tmp_path : string)
    (l1 l2 : QgsMapLayer) (w : World) : World :=
  let path := style_file tmp_path layer1 in
  let succeeded := saveNamedStyle_succeeds tk w l1 path in
  let w1 := if succeeded then with_files (<[path := style l1]> (files w)) w else w in
  let w2 := with_objects (<[layer2 := styled succeeded l1 l2]> (objects w1)) w1 in
  if isValid l2 then
    let w3 := log (AddMapLayer layer2 false) w2 in
    if Project.registered layer2 w3 then w3
    else with_mapLayerIds (Project.registry_insert layer2 (mapLayerIds w3)) w3
  else w2.

(** The fixture names resolved according to a log of calls, in order. *)
Definition resolved (cs : list Call) : list string :=
  omap (fun c => match c with GetFixtureValue n => Some n | _ => None end) cs.

(** The calls made on the project according to a log, in order. *)
Definition project_calls (cs : list Call) : list Call :=
  List.filter (fun c => match c with
                        | AddMapLayer _ _ | RemoveMapLayers _ | SetCrs _ => true
                        | _ => false
                        end) cs.

(** The clone as [replace_layers_with_reprojected_clones] hands it to the
    copier: the target CRS is forced on an output whose CRS is not valid. *)
Definition stamped (map_crs : QgsCoordinateReferenceSystem) (out : QgsMapLayer) : QgsMapLayer :=
  if negb (crs_isValid (crs out)) then setCrs map_crs out else out.

(** The CRS [set_map_crs_based_on_layers] elects. *)
Definition elected_crs (w : World) : QgsCoordinateReferenceSystem :=
  match Counter (spatial_authids w) with
  | first :: rest => Crs (most_common_first first rest).1
  | [] => DEFAULT_CRS
  end.



(** The second half of [copy_layer_style_and_position]: find the node of
    [layer1], look its name up among its siblings, insert a node for
    [layer2] after the position found. *)
Definition place_after_namesake (layer1 layer2 : string) : M unit :=
  w <- get ;;
  let root := layerTreeRoot w in
  match Project.findLayer layer1 root with
  | None => raise AttributeError
  | Some (group, k) =>
      match Project.children_at group root with
      | None => raise RuntimeError
      | Some children =>
          match children !! k with
          | None => raise RuntimeError
          | Some layer_tree_layer =>
              match Project.name_index w children !! Project.node_name w layer_tree_layer with
              | None => raise KeyError
              | Some index => Project.insertLayer group (index + 1) layer2
              end
          end
      end
  end.



(** The number of registered spatial layers that are not in CRS [c]: the
    layers a replacement run would have to reproject. *)
Definition spatial_mismatches (c : QgsCoordinateReferenceSystem) (w : World) : nat :=
  length (List.filter (fun l => isSpatial l && negb (crs_eqb (crs l) c))
            (Project.mapLayers false w)).

(** ** Sample toolkits and worlds *)

Module Examples.

Definition unit_square : QgsRectangle := Rect 0 0 1 1.
Definition far_square : QgsRectangle := Rect 5 5 7 8.
Definition point_rectangle : QgsRectangle := Rect 3 4 3 4.

Definition wgs84 : QgsCoordinateReferenceSystem := Crs "EPSG:4326".
Definition web_mercator : QgsCoordinateReferenceSystem := Crs "EPSG:3857".

(** Reprojection stamps the target CRS and invents an id from the input's;
    the transform shifts a rectangle by one unit; every service succeeds and
    the clock advances one second per reading. *)
Definition reproject (l : QgsMapLayer) (c : QgsCoordinateReferenceSystem) : QgsMapLayer :=
  {| id := id l +:+ "_reprojected"; name := "Reprojected"; layerType := VectorLayer;
     crs := c; extent := extent l; source := "memory"; style := "default";
     metadata := []; isValid := true; isSpatial := true |}.

Definition shift (r : QgsRectangle) : QgsRectangle :=
  Rect (xMinimum r + 1) (yMinimum r + 1) (xMaximum r + 1) (yMaximum r + 1).

Definition toolkit : Toolkit :=
  {| transformBoundingBox := fun _ _ _ r => Some (shift r);
     reprojectlayer := fun _ l c => Some (reproject l c);
     gdal_Warp := fun _ _ _ _ => true;
     QgsRasterLayer_new := fun _ path =>
       {| id := path; name := "warped"; layerType := RasterLayer; crs := Crs "";
          extent := unit_square; source := path; style := "default";
          metadata := []; isValid := true; isSpatial := true |};
     saveNamedStyle_succeeds := fun _ _ _ => true;
     time_time := fun n => inject_Z (Z.of_nat n) |}.

(** The same, with no style ever saved and no transform defined. *)
Definition failing_toolkit : Toolkit :=
  {| transformBoundingBox := fun _ _ _ _ => None;
     reprojectlayer := reprojectlayer toolkit;
     gdal_Warp := gdal_Warp toolkit;
     QgsRasterLayer_new := QgsRasterLayer_new toolkit;
     saveNamedStyle_succeeds := fun _ _ _ => false;
     time_time := fun _ => 0%Q |}.

Definition roads : QgsMapLayer :=
  {| id := "roads_1"; name := "roads"; layerType := VectorLayer; crs := web_mercator;
     extent := unit_square; source := "roads.shp"; style := "red lines";
     metadata := [("title", "Roads")]; isValid := true; isSpatial := true |}.

Definition lakes : QgsMapLayer :=
  {| id := "lakes_2"; name := "lakes"; layerType := VectorLayer; crs := wgs84;
     extent := far_square; source := "lakes.gpkg"; style := "blue fill";
     metadata := []; isValid := true; isSpatial := true |}.

(** An attribute table: a vector layer without geometry. *)
Definition codes : QgsMapLayer :=
  {| id := "codes_3"; name := "codes"; layerType := VectorLayer; crs := Crs "";
     extent := Rect 0 0 0 0; source := "codes.csv"; style := "plain";
     metadata := []; isValid := true; isSpatial := false |}.

Definition empty_world : World :=
  {| objects := ∅; mapLayerIds := []; projectCrs := wgs84; layerTreeRoot := [];
     files := ∅; clockReads := 0; calls := [] |}.

(** A project with the roads (in another CRS) above the lakes. *)
Definition two_layer_world : World :=
  {| objects := <["roads_1" := roads]> (<["lakes_2" := lakes]> ∅);
     mapLayerIds := ["roads_1"; "lakes_2"];
     projectCrs := wgs84;
     layerTreeRoot := [QgsLayerTreeLayer "roads_1" "roads"; QgsLayerTreeLayer "lakes_2" "lakes"];
     files := ∅; clockReads := 0; calls := [] |}.

(** The output of a reprojection, alive but not yet handed to the project;
    and one whose data source could not be opened. *)
Definition clone : QgsMapLayer :=
  {| id := "clone_7"; name := "Reprojected"; layerType := VectorLayer; crs := wgs84;
     extent := unit_square; source := "memory"; style := "default";
     metadata := []; isValid := true; isSpatial := true |}.

Definition broken_clone : QgsMapLayer :=
  {| id := "clone_8"; name := "Reprojected"; layerType := VectorLayer; crs := wgs84;
     extent := unit_square; source := "missing.shp"; style := "default";
     metadata := []; isValid := false; isSpatial := true |}.

(** A second layer that also goes by the name "roads". *)
Definition old_roads : QgsMapLayer :=
  {| id := "roads_0"; name := "roads"; layerType := VectorLayer; crs := wgs84;
     extent := unit_square; source := "roads_1990.shp"; style := "grey lines";
     metadata := []; isValid := true; isSpatial := true |}.

Definition pending_world : World :=
  with_objects (<["clone_7" := clone]> (objects two_layer_world)) two_layer_world.

(** A group whose first and last children are both named "roads". *)
Definition twin_world : World :=
  {| objects := <["roads_1" := roads]> (<["lakes_2" := lakes]>
                  (<["roads_0" := old_roads]> (<["clone_8" := broken_clone]> ∅)));
     mapLayerIds := ["lakes_2"; "roads_0"; "roads_1"];
     projectCrs := wgs84;
     layerTreeRoot :=
       [QgsLayerTreeGroup "base"
          [QgsLayerTreeLayer "roads_1" "roads"; QgsLayerTreeLayer "lakes_2" "lakes";
           QgsLayerTreeLayer "roads_0" "roads"]];
     files := ∅; clockReads := 0; calls := [] |}.

(** A test with three active fixtures: a raster layer that was built but
    never added to the project, something that is no layer, and a layer
    fixture the test never requested. *)
Definition request : FixtureRequest :=
  {| fixturenames := ["raster_fixture"; "unrelated_fixture"; "Layer_Never"];
     fixturevalue := fun n =>
       if String.eqb n "raster_fixture" then Returned (LayerValue "clone_7")
       else if String.eqb n "unrelated_fixture" then Returned OtherValue
       else Raised AssertionError |}.

(** A project whose registered roads layer has lost its data source. *)
Definition stale_roads : QgsMapLayer :=
  {| id := "roads_1"; name := "roads"; layerType := VectorLayer; crs := web_mercator;
     extent := unit_square; source := "roads.shp"; style := "red lines";
     metadata := [("title", "Roads")]; isValid := false; isSpatial := true |}.

Definition stale_world : World :=
  with_objects (<["roads_1" := stale_roads]> (objects two_layer_world)) two_layer_world.

Definition stale_request : FixtureRequest :=
  {| fixturenames := ["roads_layer"];
     fixturevalue := fun _ => Returned (LayerValue "roads_1") |}.

(** A project with the roads and an attribute table. *)
Definition table_world : World :=
  {| objects := <["roads_1" := roads]> (<["codes_3" := codes]> ∅);
     mapLayerIds := ["codes_3"; "roads_1"];
     projectCrs := wgs84;
     layerTreeRoot := [QgsLayerTreeLayer "roads_1" "roads"; QgsLayerTreeLayer "codes_3" "codes"];
     files := ∅; clockReads := 0; calls := [] |}.

(** A project whose two layers share the CRS of the lakes, while the
    project itself is set to another one. *)
Definition uniform_world : World :=
  {| objects := <["roads_0" := old_roads]> (<["lakes_2" := lakes]> ∅);
     mapLayerIds := ["lakes_2"; "roads_0"];
     projectCrs := web_mercator;
     layerTreeRoot := [QgsLayerTreeLayer "roads_0" "roads"; QgsLayerTreeLayer "lakes_2" "lakes"];
     files := ∅; clockReads := 0; calls := [] |}.

(** The project of the lakes and the old roads, both in the project CRS. *)
Definition wgs84_world : World :=
  with_projectCrs wgs84 uniform_world.

(** The two-layer project with its registry read in the other order. *)
Definition swapped_world : World :=
  with_mapLayerIds ["lakes_2"; "roads_1"] two_layer_world.


(** A test whose second layer fixture fails to set up. *)
Definition broken_request : FixtureRequest :=
  {| fixturenames := ["raster_fixture"; "broken_layer"; "layer_after"];
     fixturevalue := fun n =>
       if String.eqb n "raster_fixture" then Returned (LayerValue "clone_7")
       else if String.eqb n "broken_layer" then Raised RuntimeError
       else Returned (LayerValue "roads_1") |}.

(** The pending project with the roads taken out of the layer tree. *)
Definition detached_world : World :=
  with_layerTreeRoot [QgsLayerTreeLayer "lakes_2" "lakes"] pending_world.




(** A toolkit whose reprojection yields a layer that cannot be opened. *)
Definition spoiling_toolkit : Toolkit :=
  {| transformBoundingBox := transformBoundingBox toolkit;
     reprojectlayer := fun _ l c =>
       Some {| id := id l +:+ "_reprojected"; name := "Reprojected";
               layerType := VectorLayer; crs := c; extent := extent l;
               source := "missing.gpkg"; style := "default"; metadata := [];
               isValid := false; isSpatial := true |};
     gdal_Warp := gdal_Warp toolkit;
     QgsRasterLayer_new := QgsRasterLayer_new toolkit;
     saveNamedStyle_succeeds := saveNamedStyle_succeeds toolkit;
     time_time := time_time toolkit |}.

End Examples.

(** Looking a layer up in a heap built by insertions. *)
Ltac find_object :=
  simpl; rewrite ?lookup_insert_ne by congruence;
  first [eassumption | apply lookup_insert_eq].

(** ** Basic facts about computations *)

Lemma crs_eqb_eq (a b : QgsCoordinateReferenceSystem) :
  crs_eqb a b = true <-> authid a = authid b.
Proof. unfold crs_eqb. apply String.eqb_eq. Qed.

Lemma Qltb_false (a b : Q) : (b <= a)%Q -> Qltb a b = false.
Proof.
  intros H. unfold Qltb. apply negb_false_iff. now apply Qle_bool_iff.
Qed.


(** ** Rectangle transformer *)

(** C6: [transform_rectangle] returns its argument unchanged, and touches
    nothing, whenever the input and output CRS have the same authority id;
    in particular for [transform_rectangle r c c], whatever the rectangle. *)
Theorem transform_rectangle_same_crs
    (tk : Toolkit) (r : QgsRectangle) (c1 c2 : QgsCoordinateReferenceSystem) (w : World) :
  authid c1 = authid c2 ->
  transform_rectangle tk r c1 c2 w = (Returned r, w).
Proof.
  intros H. unfold transform_rectangle.
  apply crs_eqb_eq in H. rewrite H. reflexivity.
Qed.

Lemma transform_rectangle_same_crs_witness :
  authid Examples.web_mercator = authid Examples.web_mercator /\
  transform_rectangle Examples.failing_toolkit Examples.point_rectangle
    Examples.web_mercator Examples.web_mercator Examples.empty_world
  = (Returned Examples.point_rectangle, Examples.empty_world).
Proof.
  split; [reflexivity|].
  apply (transform_rectangle_same_crs Examples.failing_toolkit Examples.point_rectangle
           Examples.web_mercator Examples.web_mercator Examples.empty_world).
  reflexivity.
Defined.

(** A transform between different CRS is the toolkit's, and reads only. *)
Lemma transform_rectangle_state (tk : Toolkit) r c1 c2 w :
  snd (transform_rectangle tk r c1 c2 w) = w.
Proof.
  unfold transform_rectangle. destruct (crs_eqb c1 c2); [reflexivity|].
  unfold bind, get. simpl. destruct (transformBoundingBox tk w c1 c2 r); reflexivity.
Qed.

(** ** Event-pump waiter *)

(** C3, as the code has it: with a duration of 0 and a clock that does not
    run backwards between the first two readings, [wait] returns after its
    first elapsed-time check, having processed the pending events not once
    but zero times; the only trace it leaves is two clock readings. *)
Theorem wait_zero_returns_without_pumping (tk : Toolkit) (fuel : nat) (w : World) :
  (time_time tk (clockReads w) <= time_time tk (S (clockReads w)))%Q ->
  wait tk (S fuel) 0 w = Some (with_clockReads (S (S (clockReads w))) w) /\
  forall w', wait tk (S fuel) 0 w = Some w' -> pumps w' = pumps w /\ calls w' = calls w.
Proof.
  intros Hclock.
  assert (E : wait tk (S fuel) 0 w = Some (with_clockReads (S (S (clockReads w))) w)).
  { unfold wait. simpl. rewrite Qltb_false; [reflexivity|].
    change (inject_Z 0) with 0%Q. lra. }
  split; [exact E|].
  intros w' H. rewrite E in H. inversion H; subst. split; reflexivity.
Qed.

Lemma wait_zero_returns_without_pumping_witness :
  (time_time Examples.toolkit (clockReads Examples.empty_world)
   <= time_time Examples.toolkit (S (clockReads Examples.empty_world)))%Q /\
  wait Examples.toolkit 1 0 Examples.empty_world
  = Some (with_clockReads 2 Examples.empty_world).
Proof.
  split; [vm_compute; discriminate|].
  apply (wait_zero_returns_without_pumping Examples.toolkit 0 Examples.empty_world).
  vm_compute; discriminate.
Defined.

(** C3, as stated, fails: [wait 0] under an advancing clock returns with no
    event processing at all, where the claim has exactly one. *)
Lemma wait_zero_pumps_once_fails :
  exists w', wait Examples.toolkit 3 0 Examples.empty_world = Some w' /\
             pumps w' = pumps Examples.empty_world /\
             pumps w' <> pumps Examples.empty_world + 1.
Proof.
  eexists. split; [reflexivity|]. split; [reflexivity|]. vm_compute. discriminate.
Qed.

(** ** Extent aggregator *)

Lemma covers_refl (r : QgsRectangle) : covers r r.
Proof. unfold covers. repeat split; apply Qle_refl. Qed.

Lemma covers_trans (a b c : QgsRectangle) : covers a b -> covers b c -> covers a c.
Proof.
  unfold covers. intros (H1 & H2 & H3 & H4) (K1 & K2 & K3 & K4).
  repeat split; eapply Qle_trans; eassumption.
Qed.

Lemma combineExtentWith_covers_l (a b : QgsRectangle) : covers (combineExtentWith a b) a.
Proof.
  unfold covers, combineExtentWith; simpl.
  repeat split; auto using Q.le_min_l, Q.le_max_l.
Qed.

Lemma combineExtentWith_covers_r (a b : QgsRectangle) : covers (combineExtentWith a b) b.
Proof.
  unfold covers, combineExtentWith; simpl.
  repeat split; auto using Q.le_min_r, Q.le_max_r.
Qed.

Lemma combineExtentWith_least (R a b : QgsRectangle) :
  covers R a -> covers R b -> covers R (combineExtentWith a b).
Proof.
  unfold covers, combineExtentWith; simpl.
  intros (H1 & H2 & H3 & H4) (K1 & K2 & K3 & K4).
  repeat split; auto using Q.min_glb, Q.max_lub.
Qed.

(** Folding [combineExtentWith] over rectangles yields their least cover. *)
Lemma fold_combine_covers (es : list QgsRectangle) (e0 : QgsRectangle) :
  forall e, e ∈ e0 :: es -> covers (fold_left combineExtentWith es e0) e.
Proof.
  revert e0. induction es as [|x es IH]; intros e0 e He; simpl.
  - apply list_elem_of_singleton in He. subst. apply covers_refl.
  - apply elem_of_cons in He as [->|He].
    + eapply covers_trans; [apply IH; left|apply combineExtentWith_covers_l].
    + apply elem_of_cons in He as [->|He].
      * eapply covers_trans; [apply IH; left|apply combineExtentWith_covers_r].
      * apply IH. now right.
Qed.

Lemma fold_combine_least (es : list QgsRectangle) (e0 R : QgsRectangle) :
  (forall e, e ∈ e0 :: es -> covers R e) -> covers R (fold_left combineExtentWith es e0).
Proof.
  revert e0. induction es as [|x es IH]; intros e0 H; simpl.
  - apply H. left.
  - apply IH. intros e He. apply elem_of_cons in He as [->|He].
    + apply combineExtentWith_least; apply H; [left|right; left].
    + apply H. right. now right.
Qed.

Lemma transform_rectangle_returned (tk : Toolkit) r c1 c2 w e :
  outcome (transform_rectangle tk r c1 c2) w = Returned e ->
  transform_rectangle tk r c1 c2 w = (Returned e, w).
Proof.
  intros H. pose proof (transform_rectangle_state tk r c1 c2 w) as S.
  unfold outcome in H. destruct (transform_rectangle tk r c1 c2 w) as [o w'].
  simpl in *. congruence.
Qed.

Lemma fold_each_extents (tk : Toolkit) (w : World) (rest : list QgsMapLayer) :
  forall (es : list QgsRectangle) (acc : QgsRectangle),
    Forall2 (fun l e => reprojected_extent tk w l = Returned e) rest es ->
    fold_each rest
      (fun acc layer =>
         r <- transform_rectangle tk (extent layer) (crs layer) (projectCrs w) ;;
         ret (combineExtentWith acc r)) acc w
    = (Returned (fold_left combineExtentWith es acc), w).
Proof.
  induction rest as [|l rest IH]; intros es acc H; inversion H; subst; simpl.
  - reflexivity.
  - unfold bind at 1. unfold bind at 1.
    rewrite (transform_rectangle_returned _ _ _ _ _ _ H2). simpl.
    now apply IH.
Qed.

(** Reading the extents never changes the world, whatever the outcome. *)
Lemma fold_each_extents_state (tk : Toolkit) (w : World) (rest : list QgsMapLayer) :
  forall acc : QgsRectangle,
    snd (fold_each rest
      (fun acc layer =>
         r <- transform_rectangle tk (extent layer) (crs layer) (projectCrs w) ;;
         ret (combineExtentWith acc r)) acc w) = w.
Proof.
  induction rest as [|l rest IH]; intros acc; simpl; [reflexivity|].
  unfold bind at 1. unfold bind at 1.
  pose proof (transform_rectangle_state tk (extent l) (crs l) (projectCrs w) w) as S.
  destruct (transform_rectangle tk (extent l) (crs l) (projectCrs w) w) as [[e|err] w'];
    simpl in *; subst; [apply IH|reflexivity].
Qed.

Lemma get_common_extent_unfold (tk : Toolkit) (w : World) :
  get_common_extent_from_all_layers tk w =
  match Project.mapLayers true w with
  | layer0 :: rest =>
      (extent0 <- transform_rectangle tk (extent layer0) (crs layer0) (projectCrs w) ;;
       extent' <- fold_each rest
                    (fun acc layer =>
                       r <- transform_rectangle tk (extent layer) (crs layer) (projectCrs w) ;;
                       ret (combineExtentWith acc r))
                    extent0 ;;
       ret (Some extent')) w
  | [] => (Returned None, w)
  end.
Proof.
  unfold get_common_extent_from_all_layers, bind at 1, get.
  destruct (Project.mapLayers true w); reflexivity.
Qed.

(** C4: [get_common_extent_from_all_layers] never changes the world; it
    returns nothing when the project has no valid layer; and when the
    extents of the valid layers reproject to [e0], [e1], ..., it returns the
    fold of [combineExtentWith] from [e0] over the others, which covers each
    of them and is covered by every rectangle that covers them all. *)
Theorem get_common_extent_from_all_layers_spec (tk : Toolkit) (w : World) :
  exec (get_common_extent_from_all_layers tk) w = w /\
  (Project.mapLayers true w = [] ->
     outcome (get_common_extent_from_all_layers tk) w = Returned None) /\
  (forall layer0 rest e0 es,
     Project.mapLayers true w = layer0 :: rest ->
     reprojected_extent tk w layer0 = Returned e0 ->
     Forall2 (fun l e => reprojected_extent tk w l = Returned e) rest es ->
     outcome (get_common_extent_from_all_layers tk) w
       = Returned (Some (fold_left combineExtentWith es e0)) /\
     (forall e, e ∈ e0 :: es -> covers (fold_left combineExtentWith es e0) e) /\
     (forall R, (forall e, e ∈ e0 :: es -> covers R e) ->
                covers R (fold_left combineExtentWith es e0))).
Proof.
  unfold exec, outcome. rewrite get_common_extent_unfold.
  split; [|split].
  - destruct (Project.mapLayers true w) as [|l0 rest]; [reflexivity|].
    unfold bind.
    pose proof (transform_rectangle_state tk (extent l0) (crs l0) (projectCrs w) w) as S.
    destruct (transform_rectangle tk (extent l0) (crs l0) (projectCrs w) w) as [[e|err] w'];
      simpl in *; subst; [|reflexivity].
    pose proof (fold_each_extents_state tk w rest e) as S. unfold bind in S.
    destruct (fold_each rest _ e w) as [[r|err] w']; simpl in *; subst; reflexivity.
  - intros ->. reflexivity.
  - intros l0 rest e0 es -> H0 Hrest. split; [|split].
    + unfold bind at 1.
      rewrite (transform_rectangle_returned _ _ _ _ _ _ H0).
      unfold bind at 1. rewrite (fold_each_extents tk w rest es e0 Hrest). reflexivity.
    + apply fold_combine_covers.
    + apply fold_combine_least.
Qed.

Lemma get_common_extent_from_all_layers_spec_witness :
  Project.mapLayers true Examples.two_layer_world = [Examples.roads; Examples.lakes] /\
  outcome (get_common_extent_from_all_layers Examples.toolkit) Examples.two_layer_world
    = Returned (Some (fold_left combineExtentWith [Examples.far_square]
                        (Examples.shift Examples.unit_square))) /\
  exec (get_common_extent_from_all_layers Examples.toolkit) Examples.two_layer_world
    = Examples.two_layer_world.
Proof.
  assert (Hl : Project.mapLayers true Examples.two_layer_world
               = [Examples.roads; Examples.lakes]) by reflexivity.
  destruct (get_common_extent_from_all_layers_spec Examples.toolkit Examples.two_layer_world)
    as (Hstate & _ & Hsome).
  destruct (Hsome Examples.roads [Examples.lakes] (Examples.shift Examples.unit_square)
              [Examples.far_square] Hl) as (Hout & _ & _).
  - reflexivity.
  - repeat constructor.
  - repeat split; assumption.
Defined.

(** ** CRS normaliser *)

Lemma occurrences_snoc (k x : string) (xs : list string) :
  occurrences k (xs ++ [x]) = occurrences k xs + (if String.eqb x k then 1 else 0).
Proof.
  induction xs as [|y xs IH]; simpl; [lia|]. rewrite IH. lia.
Qed.

Lemma occurrences_absent (k : string) (xs : list string) :
  k ∉ xs -> occurrences k xs = 0.
Proof.
  induction xs as [|y xs IH]; simpl; intros H; [reflexivity|].
  apply not_elem_of_cons in H as [Hne Hnin].
  destruct (String.eqb_spec y k); [congruence|]. simpl. auto.
Qed.

Lemma uniq_snoc (xs : list string) (x : string) :
  uniq (xs ++ [x]) = if bool_decide (x ∈ uniq xs) then uniq xs else uniq xs ++ [x].
Proof. unfold uniq. rewrite fold_left_app. reflexivity. Qed.

Lemma elem_of_uniq (xs : list string) (k : string) : k ∈ uniq xs <-> k ∈ xs.
Proof.
  induction xs as [|x xs IH] using rev_ind; [reflexivity|].
  rewrite uniq_snoc, elem_of_app, list_elem_of_singleton.
  case_bool_decide as Hx.
  - rewrite IH. split; [tauto|]. intros [H| ->]; [assumption|]. now apply IH.
  - rewrite elem_of_app, list_elem_of_singleton, IH. reflexivity.
Qed.

Lemma NoDup_uniq (xs : list string) : NoDup (uniq xs).
Proof.
  induction xs as [|x xs IH] using rev_ind; [constructor|].
  rewrite uniq_snoc. case_bool_decide as Hx; [assumption|].
  apply NoDup_app. split; [assumption|]. split.
  - intros y Hy Hy'. apply list_elem_of_singleton in Hy'. subst. contradiction.
  - apply NoDup_singleton.
Qed.

Lemma counter_incr_absent (f : string -> nat) (k : string) (ks : list string) :
  k ∉ ks ->
  counter_incr k (List.map (fun j => (j, f j)) ks)
  = List.map (fun j => (j, f j)) ks ++ [(k, 1)].
Proof.
  induction ks as [|j ks IH]; simpl; intros H; [reflexivity|].
  apply not_elem_of_cons in H as [Hne Hnin].
  destruct (String.eqb_spec k j); [congruence|]. now rewrite IH.
Qed.

Lemma counter_incr_present (f : string -> nat) (k : string) (ks : list string) :
  NoDup ks -> k ∈ ks ->
  counter_incr k (List.map (fun j => (j, f j)) ks)
  = List.map (fun j => (j, f j + (if String.eqb k j then 1 else 0))) ks.
Proof.
  induction ks as [|j ks IH]; simpl; intros Hnd Hin.
  - now apply elem_of_nil in Hin.
  - apply NoDup_cons in Hnd as [Hj Hnd].
    destruct (String.eqb_spec k j) as [->|Hne].
    + f_equal; [f_equal; lia|].
      apply map_ext_in. intros i Hi. apply list_elem_of_In in Hi.
      destruct (String.eqb_spec j i) as [->|_]; [contradiction|]. f_equal. lia.
    + f_equal; [f_equal; lia|]. apply IH; [assumption|].
      apply elem_of_cons in Hin as [?|?]; [contradiction|assumption].
Qed.

(** The counter lists the distinct elements in the order they are first
    met, each with its number of occurrences. *)
Lemma Counter_uniq (xs : list string) :
  Counter xs = List.map (fun k => (k, occurrences k xs)) (uniq xs).
Proof.
  induction xs as [|x xs IH] using rev_ind; [reflexivity|].
  unfold Counter in *. rewrite fold_left_app. simpl. rewrite IH.
  rewrite uniq_snoc. case_bool_decide as Hx.
  - rewrite counter_incr_present by (auto using NoDup_uniq).
    apply map_ext. intros k. now rewrite occurrences_snoc.
  - rewrite counter_incr_absent by assumption.
    rewrite map_app. simpl. f_equal.
    + apply map_ext_in. intros k Hk. apply list_elem_of_In in Hk.
      rewrite occurrences_snoc.
      destruct (String.eqb_spec x k); [subst; contradiction|f_equal; lia].
    + rewrite occurrences_snoc, String.eqb_refl.
      rewrite occurrences_absent; [reflexivity|]. now rewrite <- elem_of_uniq.
Qed.

(** Where an element stands among the distinct ones tells what was met
    before its first occurrence. *)
Lemma uniq_first_occurrence (xs : list string) :
  forall u1 a u2,
    uniq xs = u1 ++ a :: u2 ->
    exists pre post,
      xs = pre ++ a :: post /\ (a ∉ pre) /\ forall b, b ∈ pre -> b ∈ u1.
Proof.
  induction xs as [|x xs IH] using rev_ind; intros u1 a u2 H.
  - destruct u1; discriminate.
  - rewrite uniq_snoc in H. case_bool_decide as Hx.
    + destruct (IH _ _ _ H) as (pre & post & -> & Hpre & Hb).
      exists pre, (post ++ [x]). split; [|split; assumption].
      now rewrite <- app_assoc.
    + destruct u2 as [|y u2 _] using rev_ind.
      * apply app_inj_tail in H as [<- <-].
        exists xs, []. split; [reflexivity|]. split.
        -- now rewrite <- elem_of_uniq.
        -- intros b Hb. now apply elem_of_uniq.
      * rewrite app_comm_cons, app_assoc in H.
        apply app_inj_tail in H as [H <-].
        destruct (IH _ _ _ H) as (pre & post & -> & Hpre & Hb).
        exists pre, (post ++ [x]). split; [|split; assumption].
        now rewrite <- app_assoc.
Qed.

(** [most_common_first] returns the first entry of maximal count. *)
Lemma most_common_first_scan (rest : list (string * nat)) :
  forall (pre : list (string * nat)) (best : string * nat) (mid : list (string * nat)),
    Forall (fun y => y.2 < best.2) pre ->
    Forall (fun y => y.2 <= best.2) mid ->
    let r := fold_left (fun best y => if Nat.ltb best.2 y.2 then y else best) rest best in
    exists c1 c2,
      pre ++ best :: mid ++ rest = c1 ++ r :: c2 /\
      Forall (fun y => y.2 < r.2) c1 /\ Forall (fun y => y.2 <= r.2) c2.
Proof.
  induction rest as [|y rest IH]; intros pre best mid Hpre Hmid; simpl.
  - exists pre, mid. rewrite app_nil_r. auto.
  - destruct (Nat.ltb_spec best.2 y.2) as [Hlt|Hge].
    + destruct (IH (pre ++ best :: mid) y []) as (c1 & c2 & E & H1 & H2).
      * apply Forall_app. split; [|constructor].
        -- eapply Forall_impl; [exact Hpre|]. simpl. intros; lia.
        -- exact Hlt.
        -- eapply Forall_impl; [exact Hmid|]. simpl. intros; lia.
      * constructor.
      * exists c1, c2. split; [|auto]. rewrite <- E. simpl.
        now rewrite <- app_assoc.
    + destruct (IH pre best (mid ++ [y])) as (c1 & c2 & E & H1 & H2).
      * exact Hpre.
      * apply Forall_app. split; [exact Hmid|]. constructor; [exact Hge|constructor].
      * exists c1, c2. split; [|auto]. rewrite <- E.
        now rewrite <- app_assoc.
Qed.

Lemma most_common_first_spec (first : string * nat) (rest : list (string * nat)) :
  exists c1 c2,
    first :: rest = c1 ++ most_common_first first rest :: c2 /\
    Forall (fun y => y.2 < (most_common_first first rest).2) c1 /\
    Forall (fun y => y.2 <= (most_common_first first rest).2) c2.
Proof.
  destruct (most_common_first_scan rest [] first []) as (c1 & c2 & E & H);
    [constructor|constructor|].
  exists c1, c2. split; [exact E|exact H].
Qed.

(** The vote: the entry [most_common_first] picks from a counter is the
    most frequent element, first met among equals. *)
Lemma Counter_most_common (xs : list string) (first : string * nat) rest :
  Counter xs = first :: rest ->
  most_frequent_first_met (most_common_first first rest).1 xs.
Proof.
  intros HC.
  destruct (most_common_first_spec first rest) as (c1 & c2 & E & H1 & H2).
  set (best := most_common_first first rest) in *.
  rewrite <- HC, Counter_uniq in E.
  assert (Hentry : forall k n, (k, n) ∈ c1 ++ best :: c2 -> n = occurrences k xs).
  { intros k n Hin. rewrite <- E in Hin. apply list_elem_of_In in Hin.
    apply in_map_iff in Hin as (j & Hj & _). congruence. }
  assert (Hbest : best.2 = occurrences best.1 xs).
  { apply Hentry. destruct best. apply elem_of_app. right. left. }
  assert (Hkeys : uniq xs = List.map fst c1 ++ best.1 :: List.map fst c2).
  { transitivity (List.map fst (List.map (fun k => (k, occurrences k xs)) (uniq xs))).
    - rewrite List.map_map. simpl. now rewrite List.map_id.
    - rewrite E, List.map_app. reflexivity. }
  assert (Hc1 : forall b, b ∈ List.map fst c1 -> occurrences b xs < occurrences best.1 xs).
  { intros b Hb. apply list_elem_of_In, in_map_iff in Hb as ([k n] & <- & Hin).
    apply list_elem_of_In in Hin. simpl.
    rewrite <- (Hentry k n) by (apply elem_of_app; now left).
    rewrite <- Hbest. rewrite Forall_forall in H1. exact (H1 _ Hin). }
  assert (Hc2 : forall b, b ∈ List.map fst c2 -> occurrences b xs <= occurrences best.1 xs).
  { intros b Hb. apply list_elem_of_In, in_map_iff in Hb as ([k n] & <- & Hin).
    apply list_elem_of_In in Hin. simpl.
    rewrite <- (Hentry k n) by (apply elem_of_app; right; now right).
    rewrite <- Hbest. rewrite Forall_forall in H2. exact (H2 _ Hin). }
  split.
  - intros b. destruct (decide (b ∈ xs)) as [Hin|Hnin].
    + apply elem_of_uniq in Hin. rewrite Hkeys in Hin.
      apply elem_of_app in Hin as [Hin|Hin]; [apply Nat.lt_le_incl; auto|].
      apply elem_of_cons in Hin as [->|Hin]; [lia|auto].
    + rewrite (occurrences_absent b xs Hnin). lia.
  - destruct (uniq_first_occurrence xs _ _ _ Hkeys) as (pre & post & Hxs & Hpre & Hb).
    exists pre, post. split; [exact Hxs|]. split; [exact Hpre|].
    intros b Hin. apply Hc1, Hb, Hin.
Qed.

(** C5: [set_map_crs_based_on_layers] always returns, and always sets the
    project CRS (the call is logged, and nothing else changes).  The CRS it
    sets is ["EPSG:4326"] when the project has no spatial layer; otherwise
    its authority id is the most frequent one among the spatial layers, the
    first met in the registry's order among the most frequent. *)
Theorem set_map_crs_based_on_layers_spec (w : World) :
  exists c,
    set_map_crs_based_on_layers w = (Returned tt, with_projectCrs c (log (SetCrs c) w)) /\
    (spatial_authids w = [] -> c = Crs "EPSG:4326") /\
    (spatial_authids w <> [] -> most_frequent_first_met (authid c) (spatial_authids w)).
Proof.
  unfold set_map_crs_based_on_layers, bind, get. simpl.
  fold (spatial_authids w).
  destruct (Counter (spatial_authids w)) as [|first rest] eqn:HC.
  - exists DEFAULT_CRS. split; [reflexivity|]. split; [reflexivity|].
    intros Hne. exfalso. apply Hne.
    rewrite Counter_uniq in HC. apply map_eq_nil in HC.
    destruct (spatial_authids w) as [|x xs]; [reflexivity|].
    assert (Hx : x ∈ uniq (x :: xs)) by (apply elem_of_uniq; left).
    rewrite HC in Hx. now apply elem_of_nil in Hx.
  - pose proof (Counter_most_common _ _ _ HC) as Hm.
    destruct (most_common_first first rest) as [crs_id n] eqn:Hbest.
    exists (Crs crs_id). split; [reflexivity|]. split; [|intros _; exact Hm].
    intros Hnil. rewrite Hnil in HC. discriminate.
Qed.

Lemma set_map_crs_based_on_layers_spec_witness :
  spatial_authids Examples.two_layer_world = ["EPSG:3857"; "EPSG:4326"] /\
  exists c,
    set_map_crs_based_on_layers Examples.two_layer_world
    = (Returned tt, with_projectCrs c (log (SetCrs c) Examples.two_layer_world)) /\
    most_frequent_first_met (authid c) (spatial_authids Examples.two_layer_world).
Proof.
  split; [reflexivity|].
  destruct (set_map_crs_based_on_layers_spec Examples.two_layer_world)
    as (c & Hrun & _ & Hvote).
  exists c. split; [exact Hrun|]. apply Hvote. discriminate.
Defined.

(** Two votes against one; a tie goes to the id met first; no spatial layer
    leaves the default. *)
Example set_map_crs_based_on_layers_votes :
  most_common_first ("EPSG:3067", 1) [("EPSG:4326", 2); ("EPSG:3857", 2)] = ("EPSG:4326", 2) /\
  Counter ["B"; "A"; "A"; "B"] = [("B", 2); ("A", 2)] /\
  projectCrs (exec set_map_crs_based_on_layers Examples.two_layer_world) = Crs "EPSG:3857" /\
  projectCrs (exec set_map_crs_based_on_layers Examples.empty_world) = Crs "EPSG:4326" /\
  calls (exec set_map_crs_based_on_layers Examples.empty_world) = [SetCrs (Crs "EPSG:4326")].
Proof. repeat split; reflexivity. Qed.

(** ** The layer tree *)

Lemma first_some_spec {A B} (f : nat -> A -> option B) (xs : list A) (o : nat) (r : B) :
  Project.first_some f xs o = Some r <->
  exists j x, xs !! j = Some x /\ f (o + j) x = Some r /\
              forall i y, i < j -> xs !! i = Some y -> f (o + i) y = None.
Proof.
  revert o. induction xs as [|x xs IH]; intros o; simpl.
  - split; [discriminate|]. intros (j & y & H & _). discriminate.
  - destruct (f o x) as [b|] eqn:E.
    + split.
      * intros [= <-]. exists 0, x. rewrite Nat.add_0_r. repeat split; auto. intros; lia.
      * intros (j & y & Hj & Hf & Hbefore). destruct j as [|j].
        -- simpl in Hj. injection Hj as <-. rewrite Nat.add_0_r in Hf. congruence.
        -- specialize (Hbefore 0 x ltac:(lia) eq_refl).
           rewrite Nat.add_0_r in Hbefore. congruence.
    + rewrite IH. split.
      * intros (j & y & Hj & Hf & Hbefore). exists (S j), y.
        split; [exact Hj|]. split; [now rewrite Nat.add_succ_r|].
        intros [|i] z Hi Hz.
        -- simpl in Hz. injection Hz as <-. now rewrite Nat.add_0_r.
        -- rewrite Nat.add_succ_r. apply (Hbefore i z); [lia|exact Hz].
      * intros (j & y & Hj & Hf & Hbefore). destruct j as [|j].
        -- simpl in Hj. injection Hj as <-. rewrite Nat.add_0_r in Hf. congruence.
        -- exists j, y. split; [exact Hj|]. split; [now rewrite Nat.add_succ_r in Hf|].
           intros i z Hi Hz. specialize (Hbefore (S i) z ltac:(lia) Hz).
           now rewrite Nat.add_succ_r in Hbefore.
Qed.

Lemma findLayer_below_group (lid g : string) (cs : list QgsLayerTreeNode) :
  Project.findLayer_below lid (QgsLayerTreeGroup g cs) = Project.first_some (probe lid) cs 0.
Proof. reflexivity. Qed.

(** One level of [findLayer]: the child it goes through, and the silence of
    the children before it. *)
Lemma findLayer_below_inv (lid g : string) (cs : list QgsLayerTreeNode) (p : list nat) (k : nat) :
  Project.findLayer_below lid (QgsLayerTreeGroup g cs) = Some (p, k) <->
  exists j c,
    cs !! j = Some c /\
    (forall i y, i < j -> cs !! i = Some y -> probe lid i y = None) /\
    ((exists stored, c = QgsLayerTreeLayer lid stored /\ p = [] /\ k = j) \/
     (exists g' sub p', c = QgsLayerTreeGroup g' sub /\ p = j :: p' /\
                        Project.findLayer_below lid c = Some (p', k))).
Proof.
  rewrite findLayer_below_group, first_some_spec. simpl.
  split; intros (j & c & Hj & H1 & H2); exists j, c; (split; [exact Hj|]).
  - split; [exact H2|]. destruct c as [i stored|g' sub]; unfold probe in H1.
    + destruct (String.eqb_spec i lid); [|discriminate].
      injection H1 as <- <-. subst. left. eauto.
    + destruct (Project.findLayer_below lid (QgsLayerTreeGroup g' sub)) as [[p' i]|];
        [|discriminate].
      injection H1 as <- <-. right. eauto 6.
  - split; [|exact H1]. destruct H2 as [(stored & -> & -> & ->)|(g' & sub & p' & -> & -> & H2)].
    + simpl. now rewrite String.eqb_refl.
    + unfold probe. now rewrite H2.
Qed.

(** The node [findLayer] reports is a node of that layer, at the position
    reported, in the group at the path reported. *)
Lemma findLayer_below_sound (lid : string) (p : list nat) :
  forall g cs k,
    Project.findLayer_below lid (QgsLayerTreeGroup g cs) = Some (p, k) ->
    exists children stored,
      Project.children_at p cs = Some children /\
      children !! k = Some (QgsLayerTreeLayer lid stored).
Proof.
  induction p as [|j p IH]; intros g cs k H;
    apply findLayer_below_inv in H as (j' & c & Hj & _ & [(st & -> & E & ->)|(g' & sub & p' & -> & E & H)]);
    try discriminate.
  - exists cs, st. split; [reflexivity|exact Hj].
  - injection E as <- <-. simpl. rewrite Hj. eapply IH, H.
Qed.

Lemma findLayer_sound (lid : string) (root : list QgsLayerTreeNode) p k :
  Project.findLayer lid root = Some (p, k) ->
  exists children stored,
    Project.children_at p root = Some children /\
    children !! k = Some (QgsLayerTreeLayer lid stored).
Proof. apply findLayer_below_sound. Qed.

(** Rewriting the children of the group at a path shows in that group. *)
Lemma children_at_update_at (p : list nat) (f : list QgsLayerTreeNode -> list QgsLayerTreeNode) :
  forall cs children,
    Project.children_at p cs = Some children ->
    Project.children_at p (Project.update_at p f cs) = Some (f children).
Proof.
  induction p as [|j p IH]; intros cs children H; simpl in *.
  - congruence.
  - destruct (cs !! j) as [[|g sub]|] eqn:Hj; try discriminate.
    rewrite list_lookup_insert_eq by (eapply lookup_lt_Some; eassumption).
    now apply IH.
Qed.

Lemma first_some_none {A B} (f : nat -> A -> option B) (xs : list A) (o : nat) :
  Project.first_some f xs o = None <->
  forall j x, xs !! j = Some x -> f (o + j) x = None.
Proof.
  revert o. induction xs as [|x xs IH]; intros o; simpl.
  - split; [|reflexivity]. intros _ j y H. discriminate.
  - destruct (f o x) as [b|] eqn:E.
    + split; [discriminate|]. intros H. specialize (H 0 x eq_refl).
      rewrite Nat.add_0_r in H. congruence.
    + rewrite IH. split.
      * intros H [|j] y Hy.
        -- simpl in Hy. injection Hy as <-. now rewrite Nat.add_0_r.
        -- rewrite Nat.add_succ_r. now apply H.
      * intros H j y Hy. specialize (H (S j) y Hy). now rewrite Nat.add_succ_r in H.
Qed.

(** [findLayer] gives the same answer after the group it found the node in
    has its children rewritten, as long as those up to the node stay. *)
Lemma findLayer_below_update_at (lid : string) (f : list QgsLayerTreeNode -> list QgsLayerTreeNode)
    (p : list nat) :
  forall g cs k,
    Project.findLayer_below lid (QgsLayerTreeGroup g cs) = Some (p, k) ->
    (forall children i, i <= k -> Project.children_at p cs = Some children ->
                        f children !! i = children !! i) ->
    Project.findLayer_below lid (QgsLayerTreeGroup g (Project.update_at p f cs)) = Some (p, k).
Proof.
  induction p as [|j p IH]; intros g cs k H Hf;
    apply findLayer_below_inv in H
      as (j' & c & Hj & Hbefore & [(st & -> & E & ->)|(g' & sub & p' & -> & E & H)]);
    try discriminate.
  - apply (proj2 (findLayer_below_inv lid g (f cs) [] j')).
    exists j', (QgsLayerTreeLayer lid st).
    split; [rewrite Hf by (auto; lia); exact Hj|].
    split; [|left; eauto].
    intros i y Hi Hy. rewrite Hf in Hy by (auto; lia). eauto.
  - injection E as <- <-.
    assert (Eu : Project.update_at (j :: p) f cs
                 = <[j := QgsLayerTreeGroup g' (Project.update_at p f sub)]> cs).
    { simpl. now rewrite Hj. }
    rewrite Eu. apply findLayer_below_inv.
    exists j, (QgsLayerTreeGroup g' (Project.update_at p f sub)).
    split; [apply list_lookup_insert_eq; eapply lookup_lt_Some; eassumption|].
    split.
    + intros i y Hi Hy. rewrite list_lookup_insert_ne in Hy by lia. eauto.
    + right. exists g', (Project.update_at p f sub), p. split; [reflexivity|].
      split; [reflexivity|]. apply IH; [exact H|].
      intros children i Hi Hc. apply Hf; [exact Hi|]. simpl. now rewrite Hj.
Qed.

(** A layer [findLayer] does not find has no node in any group. *)
Lemma findLayer_below_none (lid : string) (p : list nat) :
  forall g cs children,
    Project.findLayer_below lid (QgsLayerTreeGroup g cs) = None ->
    Project.children_at p cs = Some children ->
    forall i stored, children !! i <> Some (QgsLayerTreeLayer lid stored).
Proof.
  induction p as [|j p IH]; intros g cs children H Hc i stored Hi; simpl in Hc;
    rewrite findLayer_below_group in H;
    pose proof (proj1 (first_some_none _ _ _) H) as Hall.
  - injection Hc as <-. specialize (Hall i _ Hi). simpl in Hall.
    now rewrite String.eqb_refl in Hall.
  - destruct (cs !! j) as [[|g' sub]|] eqn:Hj; try discriminate.
    specialize (Hall j _ Hj). unfold probe in Hall.
    destruct (Project.findLayer_below lid (QgsLayerTreeGroup g' sub)) as [[p' k']|] eqn:E;
      [discriminate|].
    exact (IH g' sub children E Hc i stored Hi).
Qed.

Lemma enumerate_snoc {A} (xs : list A) (x : A) :
  Project.enumerate (xs ++ [x]) = Project.enumerate xs ++ [(length xs, x)].
Proof.
  unfold Project.enumerate. rewrite length_app. simpl.
  rewrite Nat.add_1_r, seq_S. simpl.
  rewrite zip_with_app by now rewrite length_seq. reflexivity.
Qed.

Lemma name_index_snoc (w : World) (cs : list QgsLayerTreeNode) (c : QgsLayerTreeNode) :
  Project.name_index w (cs ++ [c])
  = <[Project.node_name w c := length cs]> (Project.name_index w cs).
Proof.
  unfold Project.name_index. now rewrite enumerate_snoc, fold_left_app.
Qed.

(** The dictionary from names to positions keeps, for each name, the
    position of the last child that bears it. *)
Lemma name_index_last (w : World) (cs : list QgsLayerTreeNode) :
  forall nm i, Project.name_index w cs !! nm = Some i -> last_named w cs nm i.
Proof.
  induction cs as [|c cs IH] using rev_ind; intros nm i H.
  - unfold Project.name_index in H. simpl in H. now rewrite lookup_empty in H.
  - rewrite name_index_snoc in H.
    destruct (decide (Project.node_name w c = nm)) as [E|E].
    + subst nm. rewrite lookup_insert_eq in H. injection H as <-. split.
      * exists c. split; [now apply list_lookup_middle|reflexivity].
      * intros j y Hj Hy. apply lookup_lt_Some in Hy.
        rewrite length_app in Hy. simpl in Hy. lia.
    + rewrite lookup_insert_ne in H by exact E.
      destruct (IH nm i H) as [(y & Hy & Hn) Hlater].
      assert (Hi : i < length cs) by (eapply lookup_lt_Some; eassumption).
      split.
      * exists y. split; [now rewrite lookup_app_l|exact Hn].
      * intros j z Hj Hz. destruct (decide (j < length cs)) as [Hlt|Hge].
        -- rewrite lookup_app_l in Hz by exact Hlt. eauto.
        -- assert (j = length cs).
           { apply lookup_lt_Some in Hz. rewrite length_app in Hz. simpl in Hz. lia. }
           subst j. rewrite list_lookup_middle in Hz by reflexivity.
           injection Hz as <-. exact E.
Qed.

Lemma name_index_some (w : World) (cs : list QgsLayerTreeNode) :
  forall j c, cs !! j = Some c ->
    exists i, Project.name_index w cs !! Project.node_name w c = Some i /\ j <= i.
Proof.
  induction cs as [|c' cs IH] using rev_ind; intros j c Hj; [discriminate|].
  rewrite name_index_snoc.
  assert (Hlen : j <= length cs).
  { apply lookup_lt_Some in Hj. rewrite length_app in Hj. simpl in Hj. lia. }
  destruct (decide (Project.node_name w c' = Project.node_name w c)) as [E|E].
  - rewrite E, lookup_insert_eq. eauto.
  - rewrite lookup_insert_ne by exact E.
    destruct (decide (j < length cs)) as [Hlt|Hge].
    + rewrite lookup_app_l in Hj by exact Hlt. eauto.
    + assert (j = length cs) by lia. subst j.
      rewrite list_lookup_middle in Hj by reflexivity. injection Hj as <-.
      contradiction.
Qed.

(** When no later child bears the name, the last child that bears it is the
    given one. *)
Lemma last_named_unique (w : World) (cs : list QgsLayerTreeNode) nm i k c :
  last_named w cs nm i ->
  cs !! k = Some c -> Project.node_name w c = nm ->
  (forall j y, k < j -> cs !! j = Some y -> Project.node_name w y <> nm) ->
  i = k.
Proof.
  intros [(y & Hy & Hn) Hlater] Hk Hc Hnone.
  destruct (Nat.lt_trichotomy i k) as [Hlt|[->|Hgt]]; [|reflexivity|].
  - exfalso. exact (Hlater k c Hlt Hk Hc).
  - exfalso. exact (Hnone i y Hgt Hy Hn).
Qed.

(** ** Running the toolkit calls *)

Lemma bind_eq {A B} (m : M A) (k : A -> M B) (w w' : World) (a : A) :
  m w = (Returned a, w') -> bind m k w = k a w'.
Proof. intros H. unfold bind. now rewrite H. Qed.

Lemma bind_returned {A B} (m : M A) (k : A -> M B) (w w' : World) (b : B) :
  bind m k w = (Returned b, w') ->
  exists a w1, m w = (Returned a, w1) /\ k a w1 = (Returned b, w').
Proof.
  unfold bind. destruct (m w) as [[a|e] w1]; [eauto|discriminate].
Qed.

Lemma deref_eq (lid : string) (l : QgsMapLayer) (w : World) :
  objects w !! lid = Some l -> Project.deref lid w = (Returned l, w).
Proof. intros H. unfold Project.deref. now rewrite H. Qed.

Lemma layer_id_eq (lid : string) (l : QgsMapLayer) (w : World) :
  objects w !! lid = Some l -> Project.layer_id lid w = (Returned lid, w).
Proof. intros H. unfold Project.layer_id. now rewrite (bind_eq _ _ _ _ _ (deref_eq _ _ _ H)). Qed.

Lemma call_setter_eq (lid : string) (f : QgsMapLayer -> QgsMapLayer) (l : QgsMapLayer) (w : World) :
  objects w !! lid = Some l ->
  Project.call_setter lid f w = (Returned tt, with_objects (<[lid := f l]> (objects w)) w).
Proof.
  intros H. unfold Project.call_setter.
  rewrite (bind_eq _ _ _ _ _ (deref_eq _ _ _ H)).
  unfold Project.update_layer, modify. now rewrite (alter_alt_Some _ _ _ _ H).
Qed.

Lemma loadNamedStyle_eq (lid path : string) (l : QgsMapLayer) (s : Style) (w : World) :
  objects w !! lid = Some l -> files w !! path = Some s ->
  Project.loadNamedStyle lid path w
  = (Returned tt, with_objects (<[lid := setStyle s l]> (objects w)) w).
Proof.
  intros H Hf. unfold Project.loadNamedStyle.
  rewrite (bind_eq _ _ _ _ _ (deref_eq _ _ _ H)).
  unfold bind, get. rewrite Hf.
  unfold Project.update_layer, modify. now rewrite (alter_alt_Some _ _ _ _ H).
Qed.

Lemma saveNamedStyle_eq (tk : Toolkit) (lid path : string) (l : QgsMapLayer) (w : World) :
  objects w !! lid = Some l ->
  saveNamedStyle tk lid path w
  = (Returned (saveNamedStyle_succeeds tk w l path),
     if saveNamedStyle_succeeds tk w l path
     then with_files (<[path := style l]> (files w)) w else w).
Proof.
  intros H. unfold saveNamedStyle.
  rewrite (bind_eq _ _ _ _ _ (deref_eq _ _ _ H)).
  unfold bind, get. destruct (saveNamedStyle_succeeds tk w l path); reflexivity.
Qed.

Lemma addMapLayer_eq (lid : string) (addToLegend : bool) (l : QgsMapLayer) (w : World) :
  objects w !! lid = Some l ->
  Project.addMapLayer lid addToLegend w
  = (Returned tt,
     let w := log (AddMapLayer lid addToLegend) w in
     if Project.registered lid w then w
     else
       let w := with_mapLayerIds (Project.registry_insert lid (mapLayerIds w)) w in
       if addToLegend
       then with_layerTreeRoot (QgsLayerTreeLayer lid (name l) :: layerTreeRoot w) w
       else w).
Proof.
  intros H. unfold Project.addMapLayer.
  now rewrite (bind_eq _ _ _ _ _ (deref_eq _ _ _ H)).
Qed.

Lemma insertLayer_eq (p : list nat) (index : nat) (lid : string) (l : QgsMapLayer) (w : World) :
  objects w !! lid = Some l ->
  Project.insertLayer p index lid w
  = (Returned tt,
     with_layerTreeRoot
       (Project.update_at p (Project.insertChildNode index (QgsLayerTreeLayer lid (name l)))
          (layerTreeRoot w)) w).
Proof.
  intros H. unfold Project.insertLayer.
  now rewrite (bind_eq _ _ _ _ _ (deref_eq _ _ _ H)).
Qed.

(** ** Style and position copier *)

Lemma copied_layerTreeRoot tk layer1 layer2 tmp_path l1 l2 w :
  layerTreeRoot (copied tk layer1 layer2 tmp_path l1 l2 w) = layerTreeRoot w.
Proof.
  unfold copied.
  destruct (saveNamedStyle_succeeds tk w l1 _), (isValid l2); simpl;
    try reflexivity;
    match goal with |- context [Project.registered ?a ?b] =>
      destruct (Project.registered a b) end; reflexivity.
Qed.

Lemma copied_objects tk layer1 layer2 tmp_path l1 l2 w :
  objects (copied tk layer1 layer2 tmp_path l1 l2 w)
  = <[layer2 := styled (saveNamedStyle_succeeds tk w l1 (style_file tmp_path layer1)) l1 l2]>
      (objects w).
Proof.
  unfold copied.
  destruct (saveNamedStyle_succeeds tk w l1 _), (isValid l2); simpl;
    try reflexivity;
    match goal with |- context [Project.registered ?a ?b] =>
      destruct (Project.registered a b) end; reflexivity.
Qed.

(** The run of [copy_layer_style_and_position] on a live source that has a
    node in the tree and a live target: it returns; the target is inserted,
    in the group of the source's node, right after the last child bearing
    the source's name. *)
Lemma copy_layer_style_and_position_run (tk : Toolkit) (w : World)
    (layer1 layer2 tmp_path : string) (l1 l2 : QgsMapLayer) (p : list nat) (k : nat) :
  objects w !! layer1 = Some l1 ->
  objects w !! layer2 = Some l2 ->
  layer1 <> layer2 ->
  Project.findLayer layer1 (layerTreeRoot w) = Some (p, k) ->
  let w' := copied tk layer1 layer2 tmp_path l1 l2 w in
  exists children index,
    Project.children_at p (layerTreeRoot w) = Some children /\
    last_named w' children (name l1) index /\
    k <= index /\
    copy_layer_style_and_position tk layer1 layer2 tmp_path w
    = (Returned tt,
       with_layerTreeRoot
         (Project.update_at p
            (Project.insertChildNode (index + 1) (QgsLayerTreeLayer layer2 (name l1)))
            (layerTreeRoot w)) w').
Proof.
  intros H1 H2 Hne Hfind w'.
  destruct (findLayer_sound _ _ _ _ Hfind) as (children & stored & Hc & Hk).
  assert (Hname : Project.node_name w' (QgsLayerTreeLayer layer1 stored) = name l1).
  { simpl. subst w'. rewrite copied_objects, lookup_insert_ne by congruence.
    now rewrite H1. }
  destruct (name_index_some w' children k _ Hk) as (index & Hidx & Hle).
  rewrite Hname in Hidx.
  exists children, index. split; [exact Hc|].
  split; [now apply name_index_last|]. split; [exact Hle|].
  assert (Hobj : objects w' !! layer2 = Some (styled
            (saveNamedStyle_succeeds tk w l1 (style_file tmp_path layer1)) l1 l2)).
  { subst w'. rewrite copied_objects. apply lookup_insert_eq. }
  assert (Hroot' : layerTreeRoot w' = layerTreeRoot w)
    by (subst w'; apply copied_layerTreeRoot).
  assert (Ew' : w' = copied tk layer1 layer2 tmp_path l1 l2 w) by reflexivity.
  clearbody w'.
  unfold copy_layer_style_and_position.
  rewrite (bind_eq _ _ _ _ _ (layer_id_eq _ _ _ H1)).
  rewrite (bind_eq _ _ _ _ _ (saveNamedStyle_eq tk _ _ _ _ H1)).
  fold (style_file tmp_path layer1).
  assert (Hfinish : forall w0 : World,
            w0 = w' ->
            (w1 <- get ;;
             match Project.findLayer layer1 (layerTreeRoot w1) with
             | Some (group, k0) =>
                 match Project.children_at group (layerTreeRoot w1) with
                 | Some children0 =>
                     match children0 !! k0 with
                     | Some layer_tree_layer =>
                         match Project.name_index w1 children0
                               !! Project.node_name w1 layer_tree_layer with
                         | Some index0 => Project.insertLayer group (index0 + 1) layer2
                         | None => raise KeyError
                         end
                     | None => raise RuntimeError
                     end
                 | None => raise RuntimeError
                 end
             | None => raise AttributeError
             end) w0
            = (Returned tt,
               with_layerTreeRoot
                 (Project.update_at p
                    (Project.insertChildNode (index + 1) (QgsLayerTreeLayer layer2 (name l1)))
                    (layerTreeRoot w)) w')).
  { intros w0 ->. unfold bind, get.
    rewrite Hroot', Hfind, Hc, Hk, Hname, Hidx.
    rewrite (insertLayer_eq _ _ _ _ _ Hobj). now rewrite Hroot'. }
  clear Hname Hidx Hobj Hroot'.
  unfold copied in Ew'. fold (style_file tmp_path layer1) in Ew'.
  destruct (saveNamedStyle_succeeds tk w l1 (style_file tmp_path layer1)).
  - erewrite bind_eq
      by (eapply loadNamedStyle_eq; simpl; [exact H2|apply lookup_insert_eq]).
    erewrite bind_eq
      by (eapply deref_eq; find_object).
    erewrite bind_eq by (eapply call_setter_eq; find_object).
    erewrite bind_eq
      by (eapply deref_eq; find_object).
    erewrite bind_eq by (eapply call_setter_eq; find_object).
    erewrite bind_eq by (eapply deref_eq; find_object).
    simpl in *. rewrite !insert_insert_eq.
    destruct (isValid l2).
    + erewrite bind_eq by (eapply addMapLayer_eq; find_object).
      apply Hfinish. rewrite Ew'. simpl.
      destruct (Project.registered layer2 _); reflexivity.
    + unfold bind at 1, ret at 1. apply Hfinish. now rewrite Ew'.
  - unfold bind at 1, ret at 1.
    erewrite bind_eq by (eapply deref_eq; exact H1).
    erewrite bind_eq by (eapply call_setter_eq; exact H2).
    erewrite bind_eq
      by (eapply deref_eq; find_object).
    erewrite bind_eq by (eapply call_setter_eq; find_object).
    erewrite bind_eq by (eapply deref_eq; find_object).
    simpl in *. rewrite !insert_insert_eq.
    destruct (isValid l2).
    + erewrite bind_eq by (eapply addMapLayer_eq; find_object).
      apply Hfinish. rewrite Ew'. simpl.
      destruct (Project.registered layer2 _); reflexivity.
    + unfold bind at 1, ret at 1. apply Hfinish. now rewrite Ew'.
Qed.

Lemma insertChildNode_spec (index : nat) (n : QgsLayerTreeNode) (cs : list QgsLayerTreeNode) :
  Project.insertChildNode index n cs = take index cs ++ n :: drop index cs.
Proof.
  unfold Project.insertChildNode. destruct (Nat.ltb_spec index (length cs)) as [H|H];
    [reflexivity|].
  now rewrite take_ge, drop_ge by exact H.
Qed.

Lemma insertChildNode_before (index i : nat) (n : QgsLayerTreeNode) (cs : list QgsLayerTreeNode) :
  i < index -> i < length cs -> Project.insertChildNode index n cs !! i = cs !! i.
Proof.
  intros Hi Hlt. rewrite insertChildNode_spec.
  rewrite lookup_app_l by (rewrite length_take; lia). now apply lookup_take_lt.
Qed.

(** A target that has no node in the tree leaves the names of all nodes as
    they were. *)
Lemma copied_node_name tk layer1 layer2 tmp_path l1 l2 w p children :
  Project.findLayer layer2 (layerTreeRoot w) = None ->
  Project.children_at p (layerTreeRoot w) = Some children ->
  forall i c, children !! i = Some c ->
    Project.node_name (copied tk layer1 layer2 tmp_path l1 l2 w) c = Project.node_name w c.
Proof.
  intros Hnone Hc i c Hi. destruct c as [j stored|g sub]; [|reflexivity].
  simpl. rewrite copied_objects.
  destruct (decide (j = layer2)) as [->|Hne].
  - exfalso. exact (findLayer_below_none layer2 p "" _ _ Hnone Hc i stored Hi).
  - now rewrite lookup_insert_ne by congruence.
Qed.

Lemma last_named_ext (w w' : World) (cs : list QgsLayerTreeNode) nm i :
  (forall j c, cs !! j = Some c -> Project.node_name w' c = Project.node_name w c) ->
  last_named w' cs nm i -> last_named w cs nm i.
Proof.
  intros Hext [(c & Hc & Hn) Hlater]. split.
  - exists c. split; [exact Hc|]. now rewrite <- (Hext _ _ Hc).
  - intros j y Hj Hy. rewrite <- (Hext _ _ Hy). eauto.
Qed.

(** What [copy_layer_style_and_position] does to a live target that has no
    node yet, from a live source that has one: the target takes the source's
    metadata and name, and its style when saving succeeded; a valid target
    is registered without a legend entry; and the target's node goes right
    after the last sibling that bears the source's name. *)
Lemma copy_layer_style_and_position_effect (tk : Toolkit) (w : World)
    (layer1 layer2 tmp_path : string) (l1 l2 : QgsMapLayer) (p : list nat) (k : nat) :
  objects w !! layer1 = Some l1 ->
  objects w !! layer2 = Some l2 ->
  layer1 <> layer2 ->
  Project.findLayer layer1 (layerTreeRoot w) = Some (p, k) ->
  Project.findLayer layer2 (layerTreeRoot w) = None ->
  exists children index stored,
    Project.children_at p (layerTreeRoot w) = Some children /\
    children !! k = Some (QgsLayerTreeLayer layer1 stored) /\
    last_named w children (name l1) index /\
    k <= index /\
    ((forall j c, k < j -> children !! j = Some c -> Project.node_name w c <> name l1) ->
     index = k) /\
    copy_layer_style_and_position tk layer1 layer2 tmp_path w
    = (Returned tt,
       with_layerTreeRoot
         (Project.update_at p
            (Project.insertChildNode (index + 1) (QgsLayerTreeLayer layer2 (name l1)))
            (layerTreeRoot w))
         (copied tk layer1 layer2 tmp_path l1 l2 w)) /\
    Project.children_at p
      (layerTreeRoot (exec (copy_layer_style_and_position tk layer1 layer2 tmp_path) w))
    = Some (take (index + 1) children ++
            QgsLayerTreeLayer layer2 (name l1) :: drop (index + 1) children).
Proof.
  intros H1 H2 Hne Hfind Hnone.
  destruct (copy_layer_style_and_position_run tk w layer1 layer2 tmp_path l1 l2 p k
              H1 H2 Hne Hfind) as (children & index & Hc & Hlast & Hle & Hrun).
  destruct (findLayer_sound _ _ _ _ Hfind) as (children' & stored & Hc' & Hk).
  rewrite Hc in Hc'. injection Hc' as <-.
  apply (last_named_ext w) in Hlast;
    [|eapply copied_node_name; eassumption].
  exists children, index, stored.
  split; [exact Hc|]. split; [exact Hk|]. split; [exact Hlast|]. split; [exact Hle|].
  split; [|split; [exact Hrun|]].
  - intros Hunique. eapply last_named_unique; [exact Hlast|exact Hk| |exact Hunique].
    simpl. now rewrite H1.
  - unfold exec. rewrite Hrun. simpl.
    rewrite (children_at_update_at _ _ _ _ Hc). now rewrite insertChildNode_spec.
Qed.

Lemma copied_invalid tk layer1 layer2 tmp_path l1 l2 w :
  isValid l2 = false ->
  mapLayerIds (copied tk layer1 layer2 tmp_path l1 l2 w) = mapLayerIds w /\
  calls (copied tk layer1 layer2 tmp_path l1 l2 w) = calls w.
Proof.
  intros H. unfold copied. rewrite H.
  destruct (saveNamedStyle_succeeds tk w l1 _); split; reflexivity.
Qed.

(** C7: when saving the source's style fails, [copy_layer_style_and_position]
    still returns: the target keeps its own style, takes the source's
    metadata and name, and its node is inserted in the source's group right
    after the last sibling bearing the source's name, which is the source's
    own node when no later sibling shares the name. *)
Theorem copy_layer_style_and_position_save_fails (tk : Toolkit) (w : World)
    (layer1 layer2 tmp_path : string) (l1 l2 : QgsMapLayer) (p : list nat) (k : nat) :
  objects w !! layer1 = Some l1 ->
  objects w !! layer2 = Some l2 ->
  layer1 <> layer2 ->
  Project.findLayer layer1 (layerTreeRoot w) = Some (p, k) ->
  Project.findLayer layer2 (layerTreeRoot w) = None ->
  saveNamedStyle_succeeds tk w l1 (style_file tmp_path layer1) = false ->
  let w' := exec (copy_layer_style_and_position tk layer1 layer2 tmp_path) w in
  outcome (copy_layer_style_and_position tk layer1 layer2 tmp_path) w = Returned tt /\
  (exists l2', objects w' !! layer2 = Some l2' /\
               style l2' = style l2 /\ metadata l2' = metadata l1 /\ name l2' = name l1) /\
  files w' = files w /\
  exists children index stored,
    Project.children_at p (layerTreeRoot w) = Some children /\
    children !! k = Some (QgsLayerTreeLayer layer1 stored) /\
    last_named w children (name l1) index /\
    ((forall j c, k < j -> children !! j = Some c -> Project.node_name w c <> name l1) ->
     index = k) /\
    Project.children_at p (layerTreeRoot w')
    = Some (take (index + 1) children ++
            QgsLayerTreeLayer layer2 (name l1) :: drop (index + 1) children).
Proof.
  intros H1 H2 Hne Hfind Hnone Hfail w'.
  destruct (copy_layer_style_and_position_effect tk w layer1 layer2 tmp_path l1 l2 p k
              H1 H2 Hne Hfind Hnone)
    as (children & index & stored & Hc & Hk & Hlast & Hle & Huniq & Hrun & Htree).
  assert (Ew' : w' = with_layerTreeRoot
            (Project.update_at p
               (Project.insertChildNode (index + 1) (QgsLayerTreeLayer layer2 (name l1)))
               (layerTreeRoot w))
            (copied tk layer1 layer2 tmp_path l1 l2 w)).
  { subst w'. unfold exec. now rewrite Hrun. }
  split; [unfold outcome; now rewrite Hrun|].
  split; [|split].
  - exists (styled false l1 l2). rewrite Ew'. simpl.
    rewrite copied_objects, Hfail. split; [apply lookup_insert_eq|].
    repeat split.
  - rewrite Ew'. simpl. unfold copied. rewrite Hfail.
    destruct (isValid l2); simpl; [|reflexivity].
    destruct (Project.registered layer2 _); reflexivity.
  - exists children, index, stored.
    split; [exact Hc|]. split; [exact Hk|]. split; [exact Hlast|].
    split; [exact Huniq|exact Htree].
Qed.

Lemma copy_layer_style_and_position_save_fails_witness :
  saveNamedStyle_succeeds Examples.failing_toolkit Examples.pending_world Examples.roads
    (style_file "/tmp" "roads_1") = false /\
  outcome (copy_layer_style_and_position Examples.failing_toolkit "roads_1" "clone_7" "/tmp")
    Examples.pending_world = Returned tt /\
  files (exec (copy_layer_style_and_position Examples.failing_toolkit "roads_1" "clone_7" "/tmp")
           Examples.pending_world) = files Examples.pending_world.
Proof.
  split; [reflexivity|].
  destruct (copy_layer_style_and_position_save_fails Examples.failing_toolkit
              Examples.pending_world "roads_1" "clone_7" "/tmp"
              Examples.roads Examples.clone [] 0) as (Hout & _ & Hfiles & _).
  - reflexivity.
  - reflexivity.
  - discriminate.
  - reflexivity.
  - reflexivity.
  - reflexivity.
  - split; assumption.
Defined.

(** C10: [copy_layer_style_and_position] takes the insertion index from the
    last sibling that bears the source's name (the dictionary from names to
    positions keeps the highest position per name; the names are read once
    the target has been renamed, and are those of the world before the call
    when the target has no node yet), so the target's node goes right after
    that sibling, which lies beyond the source's own node as soon as a later
    sibling shares the name; and the node is inserted also for an invalid
    target, which is not registered with the project. *)
Theorem copy_layer_style_and_position_after_last_namesake (tk : Toolkit) (w : World)
    (layer1 layer2 tmp_path : string) (l1 l2 : QgsMapLayer) (p : list nat) (k : nat) :
  objects w !! layer1 = Some l1 ->
  objects w !! layer2 = Some l2 ->
  layer1 <> layer2 ->
  Project.findLayer layer1 (layerTreeRoot w) = Some (p, k) ->
  let w' := exec (copy_layer_style_and_position tk layer1 layer2 tmp_path) w in
  let renamed := copied tk layer1 layer2 tmp_path l1 l2 w in
  outcome (copy_layer_style_and_position tk layer1 layer2 tmp_path) w = Returned tt /\
  (exists children index stored,
     Project.children_at p (layerTreeRoot w) = Some children /\
     children !! k = Some (QgsLayerTreeLayer layer1 stored) /\
     last_named renamed children (name l1) index /\
     (Project.findLayer layer2 (layerTreeRoot w) = None ->
      last_named w children (name l1) index) /\
     (forall j c, k < j -> children !! j = Some c ->
                  Project.node_name renamed c = name l1 -> k < index /\ j <= index) /\
     Project.children_at p (layerTreeRoot w')
     = Some (take (index + 1) children ++
             QgsLayerTreeLayer layer2 (name l1) :: drop (index + 1) children)) /\
  (isValid l2 = false -> mapLayerIds w' = mapLayerIds w /\ calls w' = calls w).
Proof.
  intros H1 H2 Hne Hfind w' renamed.
  destruct (copy_layer_style_and_position_run tk w layer1 layer2 tmp_path l1 l2 p k
              H1 H2 Hne Hfind)
    as (children & index & Hc & Hlast & Hle & Hrun).
  fold renamed in Hlast, Hrun.
  destruct (findLayer_sound _ _ _ _ Hfind) as (children' & stored & Hc' & Hk).
  rewrite Hc in Hc'. injection Hc' as <-.
  split; [unfold outcome; now rewrite Hrun|]. split.
  - exists children, index, stored.
    split; [exact Hc|]. split; [exact Hk|]. split; [exact Hlast|].
    split; [|split].
    + intros Hnone. apply (last_named_ext w renamed); [|exact Hlast].
      eapply copied_node_name; eassumption.
    + intros j c Hkj Hj Hname. destruct Hlast as [_ Hlater].
      destruct (Nat.le_gt_cases j index) as [Hji|Hji]; [lia|].
      exfalso. exact (Hlater j c Hji Hj Hname).
    + subst w'. unfold exec. rewrite Hrun. simpl.
      rewrite (children_at_update_at _ _ _ _ Hc). now rewrite insertChildNode_spec.
  - intros Hinvalid. subst w'. unfold exec. rewrite Hrun. simpl.
    now apply copied_invalid.
Qed.

Lemma copy_layer_style_and_position_after_last_namesake_witness :
  Project.findLayer "roads_1" (layerTreeRoot Examples.twin_world) = Some ([0], 0) /\
  isValid Examples.broken_clone = false /\
  Project.children_at [0]
    (layerTreeRoot (exec (copy_layer_style_and_position Examples.toolkit
                            "roads_1" "clone_8" "/tmp") Examples.twin_world))
  = Some [QgsLayerTreeLayer "roads_1" "roads"; QgsLayerTreeLayer "lakes_2" "lakes";
          QgsLayerTreeLayer "roads_0" "roads"; QgsLayerTreeLayer "clone_8" "roads"] /\
  mapLayerIds (exec (copy_layer_style_and_position Examples.toolkit
                       "roads_1" "clone_8" "/tmp") Examples.twin_world)
  = mapLayerIds Examples.twin_world.
Proof.
  split; [reflexivity|]. split; [reflexivity|].
  destruct (copy_layer_style_and_position_after_last_namesake Examples.toolkit
              Examples.twin_world "roads_1" "clone_8" "/tmp"
              Examples.roads Examples.broken_clone [0] 0)
    as (_ & _ & Hinvalid).
  - reflexivity.
  - reflexivity.
  - discriminate.
  - reflexivity.
  - split; [reflexivity|]. now destruct (Hinvalid eq_refl).
Defined.

(** ** The registry *)

Lemma elem_of_registry_insert (i x : string) (ids : list string) :
  x ∈ Project.registry_insert i ids <-> x = i \/ x ∈ ids.
Proof.
  induction ids as [|j ids IH]; simpl.
  - rewrite list_elem_of_singleton, elem_of_nil. tauto.
  - destruct (String.eqb_spec i j) as [->|Hne].
    + rewrite elem_of_cons. tauto.
    + destruct (String.ltb i j).
      * rewrite elem_of_cons. tauto.
      * rewrite !elem_of_cons, IH. tauto.
Qed.

Lemma filter_absent (lid : string) (ids : list string) :
  lid ∉ ids -> List.filter (fun j => negb (String.eqb j lid)) ids = ids.
Proof.
  induction ids as [|j ids IH]; simpl; intros H; [reflexivity|].
  apply not_elem_of_cons in H as [Hne Hnin].
  destruct (String.eqb_spec j lid); [congruence|]. simpl. now rewrite IH.
Qed.

Lemma filter_registry_insert (lid : string) (ids : list string) :
  lid ∉ ids ->
  List.filter (fun j => negb (String.eqb j lid)) (Project.registry_insert lid ids) = ids.
Proof.
  induction ids as [|j ids IH]; simpl; intros H.
  - now rewrite String.eqb_refl.
  - pose proof H as H'. apply not_elem_of_cons in H as [Hne Hnin].
    destruct (String.eqb_spec lid j); [congruence|].
    destruct (String.ltb lid j); simpl.
    + rewrite String.eqb_refl. simpl.
      destruct (String.eqb_spec j lid); [congruence|]. simpl.
      now rewrite filter_absent.
    + destruct (String.eqb_spec j lid); [congruence|]. simpl. now rewrite IH.
Qed.

Lemma elem_of_filter_other (lid x : string) (ids : list string) :
  x ∈ List.filter (fun j => negb (String.eqb j lid)) ids <-> x <> lid /\ x ∈ ids.
Proof.
  rewrite list_elem_of_In, List.filter_In, <- list_elem_of_In.
  destruct (String.eqb_spec x lid); simpl; intuition congruence.
Qed.

Lemma unregister_mapLayerIds (lid : string) (w : World) :
  mapLayerIds (Project.unregister lid w)
  = List.filter (fun j => negb (String.eqb j lid)) (mapLayerIds w).
Proof.
  unfold Project.unregister, Project.registered. case_bool_decide as Hreg.
  - simpl. destruct (Project.findLayer lid (layerTreeRoot w)) as [[p k]|]; reflexivity.
  - now rewrite filter_absent.
Qed.

Lemma unregister_frame (lid : string) (w : World) :
  objects (Project.unregister lid w) = objects w /\
  calls (Project.unregister lid w) = calls w /\
  projectCrs (Project.unregister lid w) = projectCrs w /\
  files (Project.unregister lid w) = files w /\
  clockReads (Project.unregister lid w) = clockReads w.
Proof.
  unfold Project.unregister. destruct (Project.registered lid w); [|auto].
  simpl. destruct (Project.findLayer lid (layerTreeRoot w)) as [[p k]|]; auto.
Qed.

(** After [removeMapLayers ids], none of [ids] is registered, and the
    others are registered as before. *)
Lemma removed_mapLayerIds (ids : list string) :
  forall (w : World) (x : string),
    x ∈ mapLayerIds (fold_left (fun w i => Project.unregister i w) ids w)
    <-> (x ∉ ids) /\ x ∈ mapLayerIds w.
Proof.
  induction ids as [|i ids IH]; intros w x; simpl.
  - rewrite elem_of_nil. tauto.
  - rewrite IH, unregister_mapLayerIds, elem_of_filter_other, not_elem_of_cons. tauto.
Qed.

Lemma removed_frame (ids : list string) :
  forall w : World,
    objects (fold_left (fun w i => Project.unregister i w) ids w) = objects w /\
    calls (fold_left (fun w i => Project.unregister i w) ids w) = calls w.
Proof.
  induction ids as [|i ids IH]; intros w; simpl; [auto|].
  destruct (IH (Project.unregister i w)) as [-> ->].
  destruct (unregister_frame i w) as (-> & -> & _). auto.
Qed.

(** ** Fixture cleanup guard *)

Lemma contains_spec (s sub : string) :
  contains s sub = true <-> exists pre post, s = pre +:+ sub +:+ post.
Proof.
  assert (Hprefix : forall a b, String.prefix a b = true <-> exists post, b = a +:+ post).
  { induction a as [|c a IH]; intros b.
    - split; [eauto|]. intros _. destruct b; reflexivity.
    - destruct b as [|d b]; simpl; [split; [discriminate|intros [post H]; discriminate]|].
      destruct (Ascii.ascii_dec c d) as [->|Hne].
      + rewrite IH. split; intros [post H]; exists post; [now rewrite H|].
        now injection H.
      + split; [discriminate|]. intros [post H]. injection H as H _. congruence. }
  induction s as [|c s IH]; cbn [contains].
  - rewrite orb_false_r, Hprefix. split.
    + intros [post H]. exists "", post. exact H.
    + intros (pre & post & H). destruct pre; [eauto|discriminate].
  - rewrite orb_true_iff, Hprefix, IH. split.
    + intros [[post H]|(pre & post & H)].
      * exists "", post. exact H.
      * exists (String c pre), post. simpl. now rewrite H.
    + intros (pre & post & H). destruct pre as [|d pre].
      * left. eauto.
      * right. simpl in H. injection H as _ H. eauto.
Qed.

(** The name test: some keyword occurs in the lower-cased name. *)
Lemma has_layer_keyword_spec (fixture_name : string) :
  has_layer_keyword fixture_name = true <->
  exists keyword pre post,
    keyword ∈ ["layer"; "lyr"; "raster"; "rast"; "tif"] /\
    lower fixture_name = pre +:+ keyword +:+ post.
Proof.
  unfold has_layer_keyword, LAYER_KEYWORDS. rewrite existsb_exists. split.
  - intros (k & Hk & Hc). apply contains_spec in Hc as (pre & post & H).
    apply list_elem_of_In in Hk. eauto 6.
  - intros (k & pre & post & Hk & H). exists k. split; [now apply list_elem_of_In|].
    apply contains_spec. eauto.
Qed.

Lemma removeMapLayer_eq (lid : string) (w : World) :
  Project.removeMapLayer lid w
  = (Returned tt, Project.unregister lid (log (RemoveMapLayers [lid]) w)).
Proof. reflexivity. Qed.

Lemma findLayer_top (lid stored : string) (root : list QgsLayerTreeNode) :
  Project.findLayer lid (QgsLayerTreeLayer lid stored :: root) = Some ([], 0).
Proof. unfold Project.findLayer. simpl. now rewrite String.eqb_refl. Qed.

(** The register/unregister cycle on a live layer the project does not
    know: one [addMapLayer], one [removeMapLayer], and the world as before. *)
Lemma set_layer_owner_unregistered (lid : string) (l : QgsMapLayer) (w : World) :
  objects w !! lid = Some l ->
  lid ∉ mapLayerIds w ->
  _set_layer_owner_to_project (LayerValue lid) w
  = (Returned tt, log (RemoveMapLayers [lid]) (log (AddMapLayer lid true) w)).
Proof.
  intros Hl Hreg. unfold _set_layer_owner_to_project, bind at 1, get.
  rewrite Hl. rewrite bool_decide_eq_true_2 by eauto.
  rewrite bool_decide_eq_false_2.
  2:{ unfold Project.mapLayers_keys. rewrite list_elem_of_In, List.filter_In,
        <- list_elem_of_In. tauto. }
  simpl. rewrite (bind_eq _ _ _ _ _ (addMapLayer_eq _ _ _ _ Hl)).
  rewrite removeMapLayer_eq. f_equal.
  cbv zeta. unfold Project.registered at 1.
  rewrite bool_decide_eq_false_2 by exact Hreg.
  unfold Project.unregister, Project.registered.
  rewrite bool_decide_eq_true_2 by (simpl; apply elem_of_registry_insert; now left).
  simpl. rewrite findLayer_top. simpl.
  rewrite filter_registry_insert by exact Hreg.
  destruct w; reflexivity.
Qed.

(** The same cycle on a live layer that is registered but invalid: the check
    looks among the valid layers only, so the cycle runs; the [addMapLayer]
    finds the id registered and changes nothing, the [removeMapLayer]
    unregisters the layer. *)
Lemma set_layer_owner_registered_invalid (lid : string) (l : QgsMapLayer) (w : World) :
  objects w !! lid = Some l ->
  isValid l = false ->
  lid ∈ mapLayerIds w ->
  _set_layer_owner_to_project (LayerValue lid) w
  = (Returned tt,
     Project.unregister lid (log (RemoveMapLayers [lid]) (log (AddMapLayer lid true) w))).
Proof.
  intros Hl Hinvalid Hreg. unfold _set_layer_owner_to_project, bind at 1, get.
  rewrite Hl. rewrite bool_decide_eq_true_2 by eauto.
  rewrite bool_decide_eq_false_2.
  2:{ unfold Project.mapLayers_keys. rewrite list_elem_of_In, List.filter_In,
        <- list_elem_of_In. rewrite Hl, Hinvalid. intros [_ ?]. discriminate. }
  simpl. rewrite (bind_eq _ _ _ _ _ (addMapLayer_eq _ _ _ _ Hl)).
  rewrite removeMapLayer_eq. f_equal.
  cbv zeta. unfold Project.registered at 1.
  now rewrite bool_decide_eq_true_2 by exact Hreg.
Qed.

Lemma ensure_one_no_keyword (request : FixtureRequest) (n : string) (w : World) :
  has_layer_keyword n = false -> ensure_one request n w = (Returned tt, w).
Proof. intros H. unfold ensure_one. now rewrite H. Qed.

Lemma ensure_one_never_requested (request : FixtureRequest) (n : string) (w : World) :
  has_layer_keyword n = true ->
  fixturevalue request n = Raised AssertionError ->
  ensure_one request n w = (Returned tt, log (GetFixtureValue n) w).
Proof.
  intros H Hv. unfold ensure_one, getfixturevalue. now rewrite H, Hv.
Qed.

Lemma ensure_one_resolved (request : FixtureRequest) (n : string) (v : FixtureValue) (w : World) :
  has_layer_keyword n = true ->
  fixturevalue request n = Returned v ->
  ensure_one request n w = _set_layer_owner_to_project v (log (GetFixtureValue n) w).
Proof.
  intros H Hv. unfold ensure_one, getfixturevalue. now rewrite H, Hv.
Qed.

Lemma resolved_app (a b : list Call) : resolved (a ++ b) = resolved a ++ resolved b.
Proof. unfold resolved. apply omap_app. Qed.

Lemma set_layer_owner_unfold (lid : string) (w : World) :
  _set_layer_owner_to_project (LayerValue lid) w
  = if bool_decide (is_Some (objects w !! lid))
       && negb (bool_decide (lid ∈ Project.mapLayers_keys true w))
    then (Project.addMapLayer lid true ;;; Project.removeMapLayer lid) w
    else (Returned tt, w).
Proof.
  unfold _set_layer_owner_to_project, bind at 1, get.
  destruct (_ && _); reflexivity.
Qed.

(** The register/unregister cycle never resolves a fixture. *)
Lemma set_layer_owner_resolved (v : FixtureValue) (w : World) :
  outcome (_set_layer_owner_to_project v) w = Returned tt /\
  resolved (calls (exec (_set_layer_owner_to_project v) w)) = resolved (calls w).
Proof.
  unfold outcome, exec. destruct v as [lid|]; [|auto].
  rewrite set_layer_owner_unfold.
  destruct (bool_decide (is_Some (objects w !! lid))) eqn:Hlive; [|auto].
  destruct (negb (bool_decide (lid ∈ Project.mapLayers_keys true w))); [|auto].
  apply bool_decide_eq_true_1 in Hlive as [l Hl]. cbn [andb].
  rewrite (bind_eq _ _ _ _ _ (addMapLayer_eq _ _ _ _ Hl)).
  rewrite removeMapLayer_eq. cbn [fst snd]. split; [reflexivity|].
  match goal with |- context [Project.unregister lid ?w0] =>
    destruct (unregister_frame lid w0) as (_ & -> & _) end.
  cbv zeta. destruct (Project.registered lid _); simpl;
    rewrite !resolved_app; simpl; now rewrite !app_nil_r.
Qed.

(** When no resolution raises anything but the never-requested assertion,
    the guard returns having resolved the fixtures with a keyword in their
    name, each once and in order, and no other. *)
Lemma ensure_resolves_keyword_fixtures (request : FixtureRequest) (names : list string) :
  (forall n e, n ∈ names -> has_layer_keyword n = true ->
               fixturevalue request n = Raised e -> e = AssertionError) ->
  forall w : World,
    outcome (for_each names (ensure_one request)) w = Returned tt /\
    resolved (calls (exec (for_each names (ensure_one request)) w))
    = resolved (calls w) ++ List.filter has_layer_keyword names.
Proof.
  induction names as [|n names IH]; intros Hraise w; simpl.
  - unfold outcome, exec, ret. simpl. now rewrite app_nil_r.
  - assert (Hstep : exists w1,
              ensure_one request n w = (Returned tt, w1) /\
              resolved (calls w1)
              = resolved (calls w) ++ (if has_layer_keyword n then [n] else [])).
    { destruct (has_layer_keyword n) eqn:Hk.
      - destruct (fixturevalue request n) as [v|e] eqn:Hv.
        + rewrite (ensure_one_resolved _ _ _ _ Hk Hv).
          destruct (set_layer_owner_resolved v (log (GetFixtureValue n) w)) as [Ho Hr].
          unfold outcome, exec in *.
          destruct (_set_layer_owner_to_project v (log (GetFixtureValue n) w)) as [o w1].
          simpl in *. subst o. exists w1. split; [reflexivity|].
          rewrite Hr, resolved_app. reflexivity.
        + rewrite (Hraise n e (list_elem_of_here _ _) Hk Hv) in Hv.
          rewrite (ensure_one_never_requested _ _ _ Hk Hv).
          eexists. split; [reflexivity|]. simpl. now rewrite resolved_app.
      - rewrite (ensure_one_no_keyword _ _ _ Hk). exists w.
        split; [reflexivity|]. now rewrite app_nil_r. }
    destruct Hstep as (w1 & Hone & Hres).
    destruct (IH (fun m e Hm => Hraise m e (list_elem_of_further _ _ _ Hm)) w1) as [Ho Hr].
    unfold outcome, exec in *. rewrite (bind_eq _ _ _ _ _ Hone).
    split; [exact Ho|]. rewrite Hr, Hres, <- app_assoc. f_equal.
    destruct (has_layer_keyword n); reflexivity.
Qed.

(** C8: [ensure_qgis_layer_fixtures_are_cleaned] tests each active fixture
    name for a keyword among "layer", "lyr", "raster", "rast", "tif" in its
    lower-cased form; when no resolution raises anything but the
    never-requested assertion it returns, having resolved exactly the
    fixtures that pass the test, in order.  Fixture by fixture: a name
    without keyword is not resolved and nothing happens; a never-requested
    fixture is resolved and skipped, with no call on the project; a fixture
    that resolves to a live layer the project does not know costs exactly
    one [addMapLayer] followed by one [removeMapLayer], and leaves the world
    otherwise as it was. *)
Theorem ensure_qgis_layer_fixtures_are_cleaned_spec (request : FixtureRequest) :
  (forall n,
     has_layer_keyword n = true <->
     exists keyword pre post,
       keyword ∈ ["layer"; "lyr"; "raster"; "rast"; "tif"] /\
       lower n = pre +:+ keyword +:+ post) /\
  (forall w,
     (forall n e, n ∈ fixturenames request -> has_layer_keyword n = true ->
                  fixturevalue request n = Raised e -> e = AssertionError) ->
     outcome (ensure_qgis_layer_fixtures_are_cleaned request) w = Returned tt /\
     resolved (calls (exec (ensure_qgis_layer_fixtures_are_cleaned request) w))
     = resolved (calls w) ++ List.filter has_layer_keyword (fixturenames request)) /\
  (forall n w,
     has_layer_keyword n = false -> ensure_one request n w = (Returned tt, w)) /\
  (forall n w,
     has_layer_keyword n = true -> fixturevalue request n = Raised AssertionError ->
     ensure_one request n w = (Returned tt, log (GetFixtureValue n) w)) /\
  (forall n lid l w,
     has_layer_keyword n = true ->
     fixturevalue request n = Returned (LayerValue lid) ->
     objects w !! lid = Some l ->
     lid ∉ mapLayerIds w ->
     ensure_one request n w
     = (Returned tt,
        log (RemoveMapLayers [lid]) (log (AddMapLayer lid true) (log (GetFixtureValue n) w)))).
Proof.
  split; [exact has_layer_keyword_spec|].
  split; [intros w H; now apply ensure_resolves_keyword_fixtures|].
  split; [intros n w; apply ensure_one_no_keyword|].
  split; [intros n w; apply ensure_one_never_requested|].
  intros n lid l w Hk Hv Hl Hreg.
  rewrite (ensure_one_resolved _ _ _ _ Hk Hv).
  now apply (set_layer_owner_unregistered lid l).
Qed.

Lemma ensure_qgis_layer_fixtures_are_cleaned_spec_witness :
  has_layer_keyword "unrelated_fixture" = false /\
  has_layer_keyword "raster_fixture" = true /\
  outcome (ensure_qgis_layer_fixtures_are_cleaned Examples.request) Examples.pending_world
  = Returned tt /\
  resolved (calls (exec (ensure_qgis_layer_fixtures_are_cleaned Examples.request)
                     Examples.pending_world))
  = ["raster_fixture"; "Layer_Never"] /\
  ensure_one Examples.request "raster_fixture" Examples.pending_world
  = (Returned tt,
     log (RemoveMapLayers ["clone_7"])
       (log (AddMapLayer "clone_7" true)
          (log (GetFixtureValue "raster_fixture") Examples.pending_world))).
Proof.
  destruct (ensure_qgis_layer_fixtures_are_cleaned_spec Examples.request)
    as (_ & Hall & _ & _ & Hcycle).
  destruct (Hall Examples.pending_world) as [Hout Hres].
  { intros n e Hn _ Hv.
    repeat (apply elem_of_cons in Hn as [->|Hn]; [vm_compute in Hv; congruence|]).
    now apply elem_of_nil in Hn. }
  split; [reflexivity|]. split; [reflexivity|]. split; [exact Hout|].
  split; [exact Hres|].
  apply (Hcycle "raster_fixture" "clone_7" Examples.clone Examples.pending_world);
    try reflexivity.
  vm_compute. intros H. repeat (apply elem_of_cons in H as [H|H]; [discriminate|]).
  now apply elem_of_nil in H.
Defined.

(** C9: the already-registered check of the cleanup guard looks among the
    project's valid layers only.  For a live layer that is registered but
    invalid the cycle therefore runs: one [addMapLayer], which finds the id
    registered and changes nothing, then one [removeMapLayer], which
    unregisters the layer; the other layers stay registered. *)
Theorem set_layer_owner_unregisters_invalid_registered_layer
    (lid : string) (l : QgsMapLayer) (w : World) :
  objects w !! lid = Some l ->
  isValid l = false ->
  lid ∈ mapLayerIds w ->
  let w' := exec (_set_layer_owner_to_project (LayerValue lid)) w in
  outcome (_set_layer_owner_to_project (LayerValue lid)) w = Returned tt /\
  calls w' = calls w ++ [AddMapLayer lid true; RemoveMapLayers [lid]] /\
  (lid ∉ mapLayerIds w') /\
  (forall j, j <> lid -> (j ∈ mapLayerIds w' <-> j ∈ mapLayerIds w)) /\
  objects w' = objects w.
Proof.
  intros Hl Hinvalid Hreg w'. subst w'. unfold outcome, exec.
  rewrite (set_layer_owner_registered_invalid lid l w Hl Hinvalid Hreg). cbn [fst snd].
  destruct (unregister_frame lid
              (log (RemoveMapLayers [lid]) (log (AddMapLayer lid true) w)))
    as (Hobj & Hcalls & _).
  split; [reflexivity|]. split; [|split; [|split]].
  - rewrite Hcalls. simpl. now rewrite <- app_assoc.
  - rewrite unregister_mapLayerIds, elem_of_filter_other. tauto.
  - intros j Hj. rewrite unregister_mapLayerIds, elem_of_filter_other. simpl. tauto.
  - exact Hobj.
Qed.

Lemma set_layer_owner_unregisters_invalid_registered_layer_witness :
  isValid Examples.stale_roads = false /\
  "roads_1" ∈ mapLayerIds Examples.stale_world /\
  mapLayerIds (exec (ensure_qgis_layer_fixtures_are_cleaned Examples.stale_request)
                 Examples.stale_world) = ["lakes_2"] /\
  ("roads_1" ∉ mapLayerIds (exec (_set_layer_owner_to_project (LayerValue "roads_1"))
                             Examples.stale_world)).
Proof.
  split; [reflexivity|]. split; [left|]. split; [reflexivity|].
  destruct (set_layer_owner_unregisters_invalid_registered_layer
              "roads_1" Examples.stale_roads Examples.stale_world)
    as (_ & _ & Hgone & _).
  - reflexivity.
  - reflexivity.
  - left.
  - exact Hgone.
Defined.

(** ** Layer replacer *)

Lemma node_name_fresh (w1 w2 : World) (x : string) (v : QgsMapLayer)
    (p : list nat) (children : list QgsLayerTreeNode) :
  objects w1 = <[x := v]> (objects w2) ->
  Project.findLayer x (layerTreeRoot w2) = None ->
  Project.children_at p (layerTreeRoot w2) = Some children ->
  forall i c, children !! i = Some c -> Project.node_name w1 c = Project.node_name w2 c.
Proof.
  intros Hobj Hnone Hc i c Hi. destruct c as [j stored|g sub]; [|reflexivity].
  simpl. rewrite Hobj.
  destruct (decide (j = x)) as [->|Hne].
  - exfalso. exact (findLayer_below_none x p "" _ _ Hnone Hc i stored Hi).
  - now rewrite lookup_insert_ne by congruence.
Qed.

Lemma removeMapLayers_eq (ids : list string) (w : World) :
  Project.removeMapLayers ids w
  = (Returned tt,
     fold_left (fun w i => Project.unregister i w) ids (log (RemoveMapLayers ids) w)).
Proof. reflexivity. Qed.

Lemma remove_after_insert (k : nat) (n : QgsLayerTreeNode) (cs : list QgsLayerTreeNode) :
  k < length cs ->
  Project.removeChildNode k (take (k + 1) cs ++ n :: drop (k + 1) cs)
  = take k cs ++ n :: drop (k + 1) cs.
Proof.
  intros Hk. unfold Project.removeChildNode.
  assert (Hlen : length (take (k + 1) cs) = k + 1) by (rewrite length_take; lia).
  rewrite take_app_le by lia. rewrite take_take. replace (k `min` (k + 1)) with k by lia.
  f_equal. rewrite drop_app_ge by lia. rewrite Hlen.
  replace (S k - (k + 1)) with 0 by lia. reflexivity.
Qed.

Lemma spatial_of_type_single (t : LayerType) (layer : string) (l : QgsMapLayer) (w : World) :
  objects w !! layer = Some l ->
  spatial_of_type t [layer] w
  = (Returned (if bool_decide (layerType l = t) && isSpatial l then [layer] else []), w).
Proof.
  intros H. simpl. now rewrite (bind_eq _ _ _ _ _ (deref_eq _ _ _ H)).
Qed.

Lemma copied_valid tk layer1 layer2 tmp_path l1 l2 w :
  isValid l2 = true ->
  forall x, x ∈ mapLayerIds (copied tk layer1 layer2 tmp_path l1 l2 w)
            <-> x = layer2 \/ x ∈ mapLayerIds w.
Proof.
  intros H x. unfold copied. rewrite H. cbv zeta.
  unfold Project.registered. case_bool_decide as Hreg.
  - destruct (saveNamedStyle_succeeds tk w l1 _); simpl in *;
      split; [tauto|intros [->|?]; assumption|tauto|intros [->|?]; assumption].
  - destruct (saveNamedStyle_succeeds tk w l1 _); simpl in *;
      apply elem_of_registry_insert.
Qed.

(** The run of [replace_layers_with_reprojected_clones] on one live spatial
    vector layer that is registered and has a node in the tree. *)
Lemma replace_single_vector_run (tk : Toolkit) (w : World) (layer output_path : string)
    (l out : QgsMapLayer) (p : list nat) (k : nat) :
  objects w !! layer = Some l ->
  layerType l = VectorLayer -> isSpatial l = true ->
  Project.findLayer layer (layerTreeRoot w) = Some (p, k) ->
  reprojectlayer tk w l (projectCrs w) = Some out ->
  id out <> layer ->
  let w_b := with_objects (<[id out := stamped (projectCrs w) out]> (objects w)) w in
  forall w_mid,
    copy_layer_style_and_position tk layer (id out) output_path w_b = (Returned tt, w_mid) ->
    objects w_mid !! layer = Some l ->
    replace_layers_with_reprojected_clones tk [layer] output_path w
    = (Returned tt, exec (Project.removeMapLayers [layer]) w_mid).
Proof.
  intros Hl Hvec Hsp Hfind Hrun Hne w_b w_mid Hcopy Hl'.
  unfold replace_layers_with_reprojected_clones.
  rewrite (bind_eq _ _ _ _ _ (spatial_of_type_single _ _ _ _ Hl)).
  rewrite (bind_eq _ _ _ _ _ (spatial_of_type_single _ _ _ _ Hl)).
  rewrite Hvec, Hsp. simpl bool_decide. cbn [andb].
  unfold bind at 1, get. cbn [for_each].
  assert (Hbody :
    (l0 <- Project.deref layer;;
     w0 <- get;;
     match reprojectlayer tk w0 l0 (projectCrs w) with
     | Some out0 =>
         output_layer <- Project.allocate out0;;
         o <- Project.deref output_layer;;
         (if negb (crs_isValid (crs o))
          then Project.call_setter output_layer (setCrs (projectCrs w))
          else ret ());;;
         copy_layer_style_and_position tk layer output_layer output_path
     | None => raise ToolkitError
     end) w = (Returned tt, w_mid)).
  { rewrite (bind_eq _ _ _ _ _ (deref_eq _ _ _ Hl)).
    unfold bind at 1, get. rewrite Hrun.
    unfold bind at 1, Project.allocate.
    erewrite bind_eq by (eapply deref_eq; find_object).
    rewrite <- Hcopy. subst w_b. unfold stamped.
    destruct (negb (crs_isValid (crs out))).
    - erewrite bind_eq by (eapply call_setter_eq; find_object).
      simpl. now rewrite insert_insert_eq.
    - reflexivity. }
  rewrite (bind_eq _ _ _ _ _ (bind_eq _ _ _ _ _ Hbody)).
  assert (Hids : layer_ids [layer] w_mid = (Returned [layer], w_mid)).
  { cbn [layer_ids]. now rewrite (bind_eq _ _ _ _ _ (layer_id_eq _ _ _ Hl')). }
  unfold bind at 1, ret at 1.
  now rewrite (bind_eq _ _ _ _ _ Hids).
Qed.

Lemma copied_projectCrs tk layer1 layer2 tmp_path l1 l2 w :
  projectCrs (copied tk layer1 layer2 tmp_path l1 l2 w) = projectCrs w.
Proof.
  unfold copied.
  destruct (saveNamedStyle_succeeds tk w l1 _), (isValid l2); simpl;
    try reflexivity;
    match goal with |- context [Project.registered ?a ?b] =>
      destruct (Project.registered a b) end; reflexivity.
Qed.

Lemma stamped_crs (map_crs : QgsCoordinateReferenceSystem) (out : QgsMapLayer) :
  crs out = map_crs \/ crs_isValid (crs out) = false ->
  crs (stamped map_crs out) = map_crs.
Proof.
  unfold stamped. destruct (crs_isValid (crs out)); simpl; intros [H|H];
    congruence.
Qed.

Lemma stamped_frame (map_crs : QgsCoordinateReferenceSystem) (out : QgsMapLayer) :
  id (stamped map_crs out) = id out /\
  isValid (stamped map_crs out) = isValid out /\
  layerType (stamped map_crs out) = layerType out.
Proof. unfold stamped. destruct (negb _); auto. Qed.

Lemma unregister_tree (lid : string) (w : World) (p : list nat) (k : nat) :
  lid ∈ mapLayerIds w ->
  Project.findLayer lid (layerTreeRoot w) = Some (p, k) ->
  layerTreeRoot (Project.unregister lid w)
  = Project.update_at p (Project.removeChildNode k) (layerTreeRoot w).
Proof.
  intros Hreg Hfind. unfold Project.unregister, Project.registered.
  rewrite bool_decide_eq_true_2 by exact Hreg.
  cbv zeta. change (layerTreeRoot (with_mapLayerIds _ w)) with (layerTreeRoot w).
  now rewrite Hfind.
Qed.

(** C1: for a registered, live, spatial vector layer that has a node in the
    layer tree whose name no later sibling shares, and a reprojection that
    yields a valid vector layer with an id of its own, no node yet, and the
    project CRS or none stamped on it, with the style save succeeding:
    [replace_layers_with_reprojected_clones] on the list of that layer
    returns; the project then holds the new layer, a vector layer in the
    project CRS with the name, style and metadata of the original; the
    original's id is no longer registered; the new node was inserted right
    after the original's position, and once the original's node is gone
    with its layer the new node stands where the original stood. *)
Theorem replace_layers_with_reprojected_clones_single_vector
    (tk : Toolkit) (w : World) (layer output_path : string) (l out : QgsMapLayer)
    (p : list nat) (k : nat) (children : list QgsLayerTreeNode) :
  objects w !! layer = Some l ->
  layerType l = VectorLayer -> isSpatial l = true ->
  layer ∈ mapLayerIds w ->
  Project.findLayer layer (layerTreeRoot w) = Some (p, k) ->
  Project.children_at p (layerTreeRoot w) = Some children ->
  (forall j c, k < j -> children !! j = Some c -> Project.node_name w c <> name l) ->
  reprojectlayer tk w l (projectCrs w) = Some out ->
  id out <> layer ->
  Project.findLayer (id out) (layerTreeRoot w) = None ->
  layerType out = VectorLayer -> isValid out = true ->
  crs out = projectCrs w \/ crs_isValid (crs out) = false ->
  (forall w0, saveNamedStyle_succeeds tk w0 l (style_file output_path layer) = true) ->
  let w' := exec (replace_layers_with_reprojected_clones tk [layer] output_path) w in
  let node := QgsLayerTreeLayer (id out) (name l) in
  outcome (replace_layers_with_reprojected_clones tk [layer] output_path) w = Returned tt /\
  (exists clone,
     objects w' !! id out = Some clone /\
     layerType clone = VectorLayer /\ crs clone = projectCrs w' /\
     name clone = name l /\ style clone = style l /\ metadata clone = metadata l) /\
  id out ∈ mapLayerIds w' /\
  (layer ∉ mapLayerIds w') /\
  (exists w_mid,
     Project.children_at p (layerTreeRoot w_mid)
     = Some (take (k + 1) children ++ node :: drop (k + 1) children) /\
     w' = exec (Project.removeMapLayers [layer]) w_mid) /\
  Project.children_at p (layerTreeRoot w')
  = Some (take k children ++ node :: drop (k + 1) children).
Proof.
  intros Hl Hvec Hsp Hreg Hfind Hc Huniq Hrun Hne Hnone Hvec' Hvalid Hcrs Hsave w' node.
  set (out' := stamped (projectCrs w) out).
  set (w_b := with_objects (<[id out := out']> (objects w)) w).
  destruct (stamped_frame (projectCrs w) out) as (Hid' & Hvalid' & Htype').
  assert (Hlb : objects w_b !! layer = Some l) by (subst w_b; find_object).
  assert (Hob : objects w_b !! id out = Some out') by (subst w_b; find_object).
  destruct (copy_layer_style_and_position_effect tk w_b layer (id out) output_path
              l out' p k Hlb Hob (not_eq_sym Hne) Hfind Hnone)
    as (children' & index & stored & Hc' & Hk & Hlast & Hle & Hsame & Hcopy & Htree).
  change (layerTreeRoot w_b) with (layerTreeRoot w) in *.
  rewrite Hc in Hc'. injection Hc' as <-.
  assert (Hindex : index = k).
  { apply Hsame. intros j c Hj Hjc.
    rewrite (node_name_fresh w_b w (id out) out' p children eq_refl Hnone Hc j c Hjc).
    eauto. }
  subst index.
  set (w_mid := with_layerTreeRoot
                  (Project.update_at p (Project.insertChildNode (k + 1) node) (layerTreeRoot w))
                  (copied tk layer (id out) output_path l out' w_b)) in *.
  assert (Hmid_obj : objects w_mid
                     = <[id out := styled true l out']> (objects w_b)).
  { subst w_mid. simpl. now rewrite copied_objects, Hsave. }
  assert (Hlm : objects w_mid !! layer = Some l).
  { rewrite Hmid_obj. subst w_b. find_object. }
  assert (Hmid_ids : forall x, x ∈ mapLayerIds w_mid <-> x = id out \/ x ∈ mapLayerIds w).
  { intros x.
    exact (copied_valid tk layer (id out) output_path l out' w_b
             (eq_trans Hvalid' Hvalid) x). }
  assert (Hmid_tree : Project.children_at p (layerTreeRoot w_mid)
                      = Some (take (k + 1) children ++ node :: drop (k + 1) children)).
  { unfold exec in Htree. rewrite Hcopy in Htree. exact Htree. }
  pose proof (replace_single_vector_run tk w layer output_path l out p k
                Hl Hvec Hsp Hfind Hrun Hne w_mid Hcopy Hlm) as Hrep.
  assert (Ew' : w' = Project.unregister layer (log (RemoveMapLayers [layer]) w_mid)).
  { subst w'. unfold exec. now rewrite Hrep. }
  destruct (unregister_frame layer (log (RemoveMapLayers [layer]) w_mid))
    as (Hobj & _ & Hpcrs & _).
  split; [unfold outcome; now rewrite Hrep|].
  split; [|split; [|split; [|split]]].
  - exists (styled true l out'). split.
    + rewrite Ew', Hobj.
      change (objects (log (RemoveMapLayers [layer]) w_mid)) with (objects w_mid).
      rewrite Hmid_obj. apply lookup_insert_eq.
    + split; [change (layerType (stamped (projectCrs w) out) = VectorLayer); congruence|].
      split; [|repeat split].
      rewrite Ew', Hpcrs.
      change (projectCrs (log (RemoveMapLayers [layer]) w_mid))
        with (projectCrs (copied tk layer (id out) output_path l out' w_b)).
      rewrite copied_projectCrs.
      change (crs (stamped (projectCrs w) out) = projectCrs w).
      now apply stamped_crs.
  - rewrite Ew', unregister_mapLayerIds, elem_of_filter_other. simpl.
    split; [exact Hne|]. apply Hmid_ids. now left.
  - rewrite Ew', unregister_mapLayerIds, elem_of_filter_other. tauto.
  - exists w_mid. split; [exact Hmid_tree|]. subst w'. unfold exec. now rewrite Hrep.
  - assert (Hk' : k < length children) by (eapply lookup_lt_Some; eassumption).
    assert (Hfind' : Project.findLayer layer (layerTreeRoot w_mid) = Some (p, k)).
    { apply findLayer_below_update_at; [exact Hfind|].
      intros cs i Hi Hcs. rewrite Hc in Hcs. injection Hcs as <-.
      apply insertChildNode_before; lia. }
    rewrite Ew', (unregister_tree layer (log (RemoveMapLayers [layer]) w_mid) p k);
      [|apply Hmid_ids; now right|exact Hfind'].
    change (layerTreeRoot (log (RemoveMapLayers [layer]) w_mid))
      with (layerTreeRoot w_mid).
    rewrite (children_at_update_at _ _ _ _ Hmid_tree).
    now rewrite remove_after_insert.
Qed.

Lemma replace_layers_with_reprojected_clones_single_vector_witness :
  "roads_1" ∈ mapLayerIds Examples.two_layer_world /\
  Project.findLayer "roads_1" (layerTreeRoot Examples.two_layer_world) = Some ([], 0) /\
  outcome (replace_layers_with_reprojected_clones Examples.toolkit ["roads_1"] "/tmp")
    Examples.two_layer_world = Returned tt /\
  ("roads_1" ∉ mapLayerIds
     (exec (replace_layers_with_reprojected_clones Examples.toolkit ["roads_1"] "/tmp")
        Examples.two_layer_world)) /\
  Project.children_at []
    (layerTreeRoot
       (exec (replace_layers_with_reprojected_clones Examples.toolkit ["roads_1"] "/tmp")
          Examples.two_layer_world))
  = Some [QgsLayerTreeLayer "roads_1_reprojected" "roads"; QgsLayerTreeLayer "lakes_2" "lakes"].
Proof.
  split; [left|]. split; [reflexivity|].
  destruct (replace_layers_with_reprojected_clones_single_vector Examples.toolkit
              Examples.two_layer_world "roads_1" "/tmp" Examples.roads
              (Examples.reproject Examples.roads Examples.wgs84) [] 0
              (layerTreeRoot Examples.two_layer_world))
    as (Hout & _ & _ & Hgone & _ & Htree).
  - reflexivity.
  - reflexivity.
  - reflexivity.
  - left.
  - reflexivity.
  - reflexivity.
  - intros [|[|[|j]]] c Hj Hc; try lia; simpl in Hc; try discriminate.
    injection Hc as <-. vm_compute. discriminate.
  - reflexivity.
  - discriminate.
  - reflexivity.
  - reflexivity.
  - reflexivity.
  - left. reflexivity.
  - reflexivity.
  - split; [exact Hout|]. split; [exact Hgone|]. exact Htree.
Defined.

Lemma layer_ids_returned (layers : list string) :
  forall w ids w1, layer_ids layers w = (Returned ids, w1) -> ids = layers /\ w1 = w.
Proof.
  induction layers as [|layer layers IH]; intros w ids w1 H; simpl in H.
  - now injection H as <- <-.
  - apply bind_returned in H as (i & w2 & Hi & H).
    unfold Project.layer_id in Hi. apply bind_returned in Hi as (l & w3 & Hd & Hi).
    unfold Project.deref in Hd. destruct (objects w !! layer); [|discriminate].
    injection Hd as <- <-. injection Hi as <- <-.
    apply bind_returned in H as (ids' & w4 & Hids & H).
    destruct (IH _ _ _ Hids) as [-> ->]. now injection H as <- <-.
Qed.

(** Whenever [replace_layers_with_reprojected_clones] returns, every layer
    of its input list has been unregistered, replaced or not. *)
Lemma replace_removes_every_input (tk : Toolkit) (layers : list string)
    (output_path : string) (w : World) :
  outcome (replace_layers_with_reprojected_clones tk layers output_path) w = Returned tt ->
  forall layer, layer ∈ layers ->
    layer ∉ mapLayerIds (exec (replace_layers_with_reprojected_clones tk layers output_path) w).
Proof.
  unfold outcome, exec. intros Hout layer Hin.
  destruct (replace_layers_with_reprojected_clones tk layers output_path w) as [o w'] eqn:E.
  simpl in *. subst o. unfold replace_layers_with_reprojected_clones in E.
  apply bind_returned in E as (vector_layers & w1 & _ & E).
  apply bind_returned in E as (raster_layers & w2 & _ & E).
  apply bind_returned in E as (w3 & w4 & _ & E).
  apply bind_returned in E as ([] & w5 & _ & E).
  apply bind_returned in E as ([] & w6 & _ & E).
  apply bind_returned in E as (ids & w7 & Hids & E).
  apply layer_ids_returned in Hids as [-> ->].
  rewrite removeMapLayers_eq in E. injection E as <-.
  rewrite removed_mapLayerIds. tauto.
Qed.

(** C2, at an input the code can receive: an attribute table, which is a
    vector layer without geometry, passed with the layers to replace.  No
    replacement is created for it, but the final removal unregisters it
    with the others and drops its node, so it does not stay in the project. *)
Lemma replace_layers_with_reprojected_clones_drops_skipped_layer :
  let w := Examples.table_world in
  let w' := exec (replace_layers_with_reprojected_clones Examples.toolkit ["codes_3"] "/tmp") w in
  objects w !! "codes_3" = Some Examples.codes /\
  isSpatial Examples.codes = false /\
  "codes_3" ∈ mapLayerIds w /\
  outcome (replace_layers_with_reprojected_clones Examples.toolkit ["codes_3"] "/tmp") w
  = Returned tt /\
  objects w' = objects w /\
  calls w' = [RemoveMapLayers ["codes_3"]] /\
  mapLayerIds w' = ["roads_1"] /\
  layerTreeRoot w' = [QgsLayerTreeLayer "roads_1" "roads"].
Proof.
  cbv zeta. split; [reflexivity|]. split; [reflexivity|]. split; [left|].
  repeat split; reflexivity.
Qed.

(** ** Further properties: CRS mismatch finder and normaliser *)

Lemma elem_of_mapLayers_keys (validOnly : bool) (w : World) (x : string) :
  x ∈ Project.mapLayers_keys validOnly w <->
  x ∈ mapLayerIds w /\
  exists l, objects w !! x = Some l /\ (validOnly = true -> isValid l = true).
Proof.
  unfold Project.mapLayers_keys.
  rewrite list_elem_of_In, List.filter_In, <- list_elem_of_In.
  destruct (objects w !! x) as [l|]; split.
  - intros [Hx Hv]. split; [exact Hx|]. exists l. split; [reflexivity|].
    intros ->. exact Hv.
  - intros [Hx (l' & [= <-] & Hv)]. split; [exact Hx|].
    destruct validOnly; [now apply Hv|reflexivity].
  - intros [_ ?]. discriminate.
  - intros [_ (l' & ? & _)]. discriminate.
Qed.

(** The list [get_layers_with_different_crs] returns. *)
Lemma get_layers_with_different_crs_shape (w : World) :
  exists ids,
    get_layers_with_different_crs w = (Returned ids, w) /\
    forall x, x ∈ ids <->
      x ∈ mapLayerIds w /\
      exists l, objects w !! x = Some l /\ authid (crs l) <> authid (projectCrs w).
Proof.
  eexists. split; [reflexivity|]. intros x.
  rewrite list_elem_of_In, List.filter_In, <- list_elem_of_In.
  rewrite elem_of_mapLayers_keys. split.
  - intros [[Hx (l & Hl & _)] Hd]. split; [exact Hx|]. exists l.
    split; [exact Hl|]. rewrite Hl in Hd. apply negb_true_iff in Hd.
    intros E. apply crs_eqb_eq in E. congruence.
  - intros [Hx (l & Hl & Hne)]. split; [split; [exact Hx|]; exists l; now split|].
    rewrite Hl. apply negb_true_iff.
    destruct (crs_eqb (crs l) (projectCrs w)) eqn:E; [|reflexivity].
    apply crs_eqb_eq in E. contradiction.
Qed.

(** X1: [get_layers_with_different_crs] only reads: it returns, in the
    registry's order, exactly the registered live layers whose CRS authority
    id differs from the project's.  So a layer without CRS is always listed
    when the project CRS is valid, and nothing is listed when every layer
    carries the project's id. *)
Theorem get_layers_with_different_crs_spec (w : World) :
  exists ids,
    get_layers_with_different_crs w = (Returned ids, w) /\
    ids `sublist_of` mapLayerIds w /\
    (forall x, x ∈ ids <->
       x ∈ mapLayerIds w /\
       exists l, objects w !! x = Some l /\ authid (crs l) <> authid (projectCrs w)) /\
    (forall x l, x ∈ mapLayerIds w -> objects w !! x = Some l ->
       crs_isValid (crs l) = false -> crs_isValid (projectCrs w) = true -> x ∈ ids) /\
    ((forall x l, x ∈ mapLayerIds w -> objects w !! x = Some l ->
        authid (crs l) = authid (projectCrs w)) -> ids = []).
Proof.
  eexists. split; [reflexivity|].
  set (differs := fun layer : string =>
         match objects w !! layer with
         | Some l => negb (crs_eqb (crs l) (projectCrs w))
         | None => false
         end).
  assert (Hmem : forall x,
            x ∈ List.filter differs (Project.mapLayers_keys false w) <->
            x ∈ mapLayerIds w /\
            exists l, objects w !! x = Some l /\ authid (crs l) <> authid (projectCrs w)).
  { intros x. rewrite list_elem_of_In, List.filter_In, <- list_elem_of_In.
    rewrite elem_of_mapLayers_keys. subst differs. simpl. split.
    - intros [[Hx (l & Hl & _)] Hd]. split; [exact Hx|]. exists l.
      split; [exact Hl|]. rewrite Hl in Hd. apply negb_true_iff in Hd.
      intros E. apply crs_eqb_eq in E. congruence.
    - intros [Hx (l & Hl & Hne)]. split; [split; [exact Hx|]; exists l; now split|].
      rewrite Hl. apply negb_true_iff.
      destruct (crs_eqb (crs l) (projectCrs w)) eqn:E; [|reflexivity].
      apply crs_eqb_eq in E. contradiction. }
  split; [|split; [exact Hmem|split]].
  - transitivity (Project.mapLayers_keys false w).
    + clear. induction (Project.mapLayers_keys false w) as [|x xs IH]; simpl;
        [constructor|]. destruct (differs x); now constructor.
    + unfold Project.mapLayers_keys. clear.
      induction (mapLayerIds w) as [|x xs IH]; simpl; [constructor|].
      destruct (match objects w !! x with Some _ => true | None => false end);
        now constructor.
  - intros x l Hx Hl Hinv Hval. apply Hmem. split; [exact Hx|]. exists l.
    split; [exact Hl|]. unfold crs_isValid in *. intros E. rewrite E in Hinv.
    congruence.
  - intros Hall. destruct (List.filter differs _) as [|x xs] eqn:E; [reflexivity|].
    assert (Hx : x ∈ x :: xs) by left.
    apply Hmem in Hx as [Hx (l & Hl & Hne)]. exfalso. eauto.
Qed.

Lemma get_layers_with_different_crs_spec_witness :
  exists ids,
    get_layers_with_different_crs Examples.table_world
    = (Returned ids, Examples.table_world) /\
    "codes_3" ∈ ids /\ "roads_1" ∈ ids.
Proof.
  destruct (get_layers_with_different_crs_spec Examples.table_world)
    as (ids & Hrun & _ & Hmem & Hnocrs & _).
  exists ids. split; [exact Hrun|]. split.
  - apply (Hnocrs "codes_3" Examples.codes); [left|reflexivity|reflexivity|reflexivity].
  - apply Hmem. split; [right; left|]. exists Examples.roads.
    split; [reflexivity|discriminate].
Defined.

Lemma set_map_crs_based_on_layers_eq (w : World) :
  set_map_crs_based_on_layers w
  = (Returned tt, with_projectCrs (elected_crs w) (log (SetCrs (elected_crs w)) w)).
Proof.
  unfold set_map_crs_based_on_layers, bind, get, elected_crs. simpl.
  fold (spatial_authids w).
  destruct (Counter (spatial_authids w)) as [|first rest]; [reflexivity|].
  destruct (most_common_first first rest); reflexivity.
Qed.

(** The elected id is one of the votes. *)
Lemma elected_crs_voted (w : World) :
  spatial_authids w <> [] -> authid (elected_crs w) ∈ spatial_authids w.
Proof.
  intros Hne. unfold elected_crs.
  destruct (Counter (spatial_authids w)) as [|first rest] eqn:HC.
  - exfalso. apply Hne. rewrite Counter_uniq in HC. apply map_eq_nil in HC.
    destruct (spatial_authids w) as [|x xs]; [reflexivity|].
    assert (Hx : x ∈ uniq (x :: xs)) by (apply elem_of_uniq; left).
    rewrite HC in Hx. now apply elem_of_nil in Hx.
  - destruct (Counter_most_common _ _ _ HC) as [_ (pre & post & E & _)].
    simpl. rewrite E. apply elem_of_app. right. left.
Qed.

Lemma elem_of_spatial_authids (w : World) (a : string) :
  a ∈ spatial_authids w <->
  exists x l, x ∈ mapLayerIds w /\ objects w !! x = Some l /\
              isSpatial l = true /\ authid (crs l) = a.
Proof.
  unfold spatial_authids, Project.mapLayers.
  rewrite list_elem_of_In, in_map_iff. split.
  - intros (l & <- & Hl). apply List.filter_In in Hl as [Hl Hsp].
    apply list_elem_of_In, list_elem_of_omap in Hl as (x & Hx & Hl).
    apply elem_of_mapLayers_keys in Hx as [Hx _]. eauto 7.
  - intros (x & l & Hx & Hl & Hsp & <-). exists l. split; [reflexivity|].
    apply List.filter_In. split; [|exact Hsp].
    apply list_elem_of_In, list_elem_of_omap. exists x. split; [|exact Hl].
    apply elem_of_mapLayers_keys. split; [exact Hx|]. exists l. split; [exact Hl|].
    discriminate.
Qed.

(** X2: normalising, then looking for mismatches.  In a project whose
    registered layers are all live, spatial and in one and the same CRS,
    [set_map_crs_based_on_layers] followed by
    [get_layers_with_different_crs] finds no layer to replace, whatever the
    project CRS was before. *)
Theorem normalised_project_has_no_mismatch (w : World) (a : string) :
  (forall x, x ∈ mapLayerIds w ->
     exists l, objects w !! x = Some l /\ isSpatial l = true /\ authid (crs l) = a) ->
  (set_map_crs_based_on_layers ;;; get_layers_with_different_crs) w
  = (Returned [],
     with_projectCrs (elected_crs w) (log (SetCrs (elected_crs w)) w)) /\
  (mapLayerIds w <> [] -> elected_crs w = Crs a).
Proof.
  intros Hall.
  assert (Helect : mapLayerIds w <> [] -> elected_crs w = Crs a).
  { intros Hne. destruct (mapLayerIds w) as [|x xs] eqn:Hids; [congruence|].
    destruct (Hall x ltac:(left)) as (l & Hl & Hsp & Ha).
    assert (Hin : a ∈ spatial_authids w).
    { apply elem_of_spatial_authids. exists x, l. rewrite Hids.
      split; [left|]. auto. }
    assert (Hvoted : authid (elected_crs w) ∈ spatial_authids w).
    { apply elected_crs_voted. intros E. rewrite E in Hin. now apply elem_of_nil in Hin. }
    apply elem_of_spatial_authids in Hvoted as (y & l' & Hy & Hl' & _ & Ha').
    rewrite <- Hids in Hall. destruct (Hall y Hy) as (l'' & Hl'' & _ & Ha'').
    destruct (elected_crs w) as [e]. simpl in *. congruence. }
  split; [|exact Helect].
  rewrite (bind_eq _ _ _ _ _ (set_map_crs_based_on_layers_eq w)).
  destruct (get_layers_with_different_crs_shape
              (with_projectCrs (elected_crs w) (log (SetCrs (elected_crs w)) w)))
    as (ids & Hrun & Hmem).
  rewrite Hrun. f_equal. f_equal.
  destruct ids as [|x xs]; [reflexivity|]. exfalso.
  destruct (proj1 (Hmem x) ltac:(left)) as [Hx (l & Hl & Hne)]. simpl in *.
  destruct (Hall x Hx) as (l' & Hl' & _ & Ha).
  assert (Hids : mapLayerIds w <> []).
  { intros E. rewrite E in Hx. now apply elem_of_nil in Hx. }
  rewrite (Helect Hids) in Hne. simpl in Hne. congruence.
Qed.

Lemma normalised_project_has_no_mismatch_witness :
  outcome get_layers_with_different_crs Examples.uniform_world
    = Returned ["lakes_2"; "roads_0"] /\
  outcome (set_map_crs_based_on_layers ;;; get_layers_with_different_crs)
    Examples.uniform_world = Returned [] /\
  elected_crs Examples.uniform_world = Crs "EPSG:4326".
Proof.
  split; [reflexivity|].
  destruct (normalised_project_has_no_mismatch Examples.uniform_world "EPSG:4326")
    as [Hrun Helect].
  - intros x Hx.
    apply elem_of_cons in Hx as [->|Hx]; [exists Examples.lakes; now repeat split|].
    apply elem_of_cons in Hx as [->|Hx]; [exists Examples.old_roads; now repeat split|].
    now apply elem_of_nil in Hx.
  - split; [unfold outcome; now rewrite Hrun|]. apply Helect. discriminate.
Defined.

(** ** Further properties: extent aggregator *)

Lemma transform_rectangle_same_crs_eq (tk : Toolkit) r c1 c2 w :
  authid c1 = authid c2 -> transform_rectangle tk r c1 c2 w = (Returned r, w).
Proof.
  intros H. unfold transform_rectangle. apply crs_eqb_eq in H. now rewrite H.
Qed.

(** X3: when every valid layer is in the project CRS, no transform is
    asked of the toolkit: [get_common_extent_from_all_layers] returns the
    union of the layers' own extents, also where the toolkit would fail. *)
Theorem get_common_extent_same_crs (tk : Toolkit) (w : World)
    (layer0 : QgsMapLayer) (rest : list QgsMapLayer) :
  Project.mapLayers true w = layer0 :: rest ->
  (forall l, l ∈ layer0 :: rest -> authid (crs l) = authid (projectCrs w)) ->
  get_common_extent_from_all_layers tk w
  = (Returned (Some (fold_left combineExtentWith (List.map extent rest) (extent layer0))), w).
Proof.
  intros Hl Hsame. rewrite get_common_extent_unfold, Hl.
  rewrite (bind_eq _ _ _ _ _
             (transform_rectangle_same_crs_eq tk _ _ _ w (Hsame layer0 ltac:(left)))).
  erewrite bind_eq; [reflexivity|].
  apply fold_each_extents.
  assert (Hrest : forall l, l ∈ rest -> authid (crs l) = authid (projectCrs w))
    by (intros l Hin; apply Hsame; now right).
  clear Hl Hsame. induction rest as [|l rest IH]; simpl; constructor.
  - unfold reprojected_extent, outcome.
    now rewrite (transform_rectangle_same_crs_eq tk _ _ _ w (Hrest l ltac:(left))).
  - apply IH. intros l' Hin. apply Hrest. now right.
Qed.

Lemma get_common_extent_same_crs_witness :
  Project.mapLayers true Examples.wgs84_world = [Examples.lakes; Examples.old_roads] /\
  get_common_extent_from_all_layers Examples.failing_toolkit Examples.wgs84_world
  = (Returned (Some (combineExtentWith Examples.far_square Examples.unit_square)),
     Examples.wgs84_world).
Proof.
  split; [reflexivity|].
  apply (get_common_extent_same_crs Examples.failing_toolkit Examples.wgs84_world
           Examples.lakes [Examples.old_roads]); [reflexivity|].
  intros l Hl.
  apply elem_of_cons in Hl as [->|Hl]; [reflexivity|].
  apply elem_of_cons in Hl as [->|Hl]; [reflexivity|].
  now apply elem_of_nil in Hl.
Defined.

Lemma transform_rectangle_raised (tk : Toolkit) r c1 c2 w e :
  outcome (transform_rectangle tk r c1 c2) w = Raised e ->
  transform_rectangle tk r c1 c2 w = (Raised ToolkitError, w).
Proof.
  unfold outcome, transform_rectangle. destruct (crs_eqb c1 c2); [discriminate|].
  unfold bind, get. simpl. destruct (transformBoundingBox tk w c1 c2 r);
    [discriminate|reflexivity].
Qed.

Lemma fold_each_extents_raised (tk : Toolkit) (w : World) (pre : list QgsMapLayer) :
  forall (es : list QgsRectangle) (acc : QgsRectangle) (l : QgsMapLayer)
         (post : list QgsMapLayer) (e : PyError),
    Forall2 (fun l e => reprojected_extent tk w l = Returned e) pre es ->
    reprojected_extent tk w l = Raised e ->
    fold_each (pre ++ l :: post)
      (fun acc layer =>
         r <- transform_rectangle tk (extent layer) (crs layer) (projectCrs w) ;;
         ret (combineExtentWith acc r)) acc w
    = (Raised ToolkitError, w).
Proof.
  induction pre as [|l' pre IH]; intros es acc l post e H Hl; inversion H; subst; simpl.
  - unfold bind at 1. unfold bind at 1.
    now rewrite (transform_rectangle_raised _ _ _ _ _ _ Hl).
  - unfold bind at 1. unfold bind at 1.
    rewrite (transform_rectangle_returned _ _ _ _ _ _ H2). simpl. eauto.
Qed.

(** X4: [get_common_extent_from_all_layers] gives up at the first valid
    layer whose extent the toolkit cannot transform: the toolkit's error
    comes out, whatever the layers after it, and the world is as before. *)
Theorem get_common_extent_transform_fails (tk : Toolkit) (w : World)
    (pre : list QgsMapLayer) (l : QgsMapLayer) (post : list QgsMapLayer)
    (es : list QgsRectangle) (e : PyError) :
  Project.mapLayers true w = pre ++ l :: post ->
  Forall2 (fun l e => reprojected_extent tk w l = Returned e) pre es ->
  reprojected_extent tk w l = Raised e ->
  get_common_extent_from_all_layers tk w = (Raised ToolkitError, w).
Proof.
  intros Hl Hpre Hfail. rewrite get_common_extent_unfold, Hl.
  destruct Hpre as [|l0 e0 pre es H0 Hpre]; simpl.
  - unfold bind at 1. now rewrite (transform_rectangle_raised _ _ _ _ _ _ Hfail).
  - unfold bind at 1. rewrite (transform_rectangle_returned _ _ _ _ _ _ H0).
    unfold bind at 1.
    now rewrite (fold_each_extents_raised tk w pre es e0 l post e Hpre Hfail).
Qed.

Lemma get_common_extent_transform_fails_witness :
  Project.mapLayers true Examples.swapped_world = [Examples.lakes; Examples.roads] /\
  reprojected_extent Examples.failing_toolkit Examples.swapped_world Examples.roads
    = Raised ToolkitError /\
  get_common_extent_from_all_layers Examples.failing_toolkit Examples.swapped_world
  = (Raised ToolkitError, Examples.swapped_world).
Proof.
  split; [reflexivity|]. split; [reflexivity|].
  apply (get_common_extent_transform_fails Examples.failing_toolkit Examples.swapped_world
           [Examples.lakes] Examples.roads [] [Examples.far_square] ToolkitError).
  - reflexivity.
  - repeat constructor.
  - reflexivity.
Defined.

Lemma fold_each_extents_inv (tk : Toolkit) (w : World) (rest : list QgsMapLayer) :
  forall (acc r : QgsRectangle) (w' : World),
    fold_each rest
      (fun acc layer =>
         r <- transform_rectangle tk (extent layer) (crs layer) (projectCrs w) ;;
         ret (combineExtentWith acc r)) acc w = (Returned r, w') ->
    exists es,
      Forall2 (fun l e => reprojected_extent tk w l = Returned e) rest es /\
      r = fold_left combineExtentWith es acc.
Proof.
  induction rest as [|l rest IH]; intros acc r w' H; simpl in H.
  - injection H as <- _. exists []. split; [constructor|reflexivity].
  - apply bind_returned in H as (acc' & w1 & Hstep & H).
    apply bind_returned in Hstep as (e & w2 & He & Hstep).
    injection Hstep as <- <-.
    pose proof (transform_rectangle_state tk (extent l) (crs l) (projectCrs w) w) as Hs.
    rewrite He in Hs. simpl in Hs. subst w2.
    destruct (IH _ _ _ H) as (es & Hes & ->).
    exists (e :: es). split; [|reflexivity]. constructor; [|exact Hes].
    unfold reprojected_extent, outcome. now rewrite He.
Qed.

(** What [get_common_extent_from_all_layers] returns is the least rectangle
    that covers the reprojected extent of each valid layer. *)
Lemma get_common_extent_returned_least (tk : Toolkit) (w : World) (r : QgsRectangle) :
  outcome (get_common_extent_from_all_layers tk) w = Returned (Some r) ->
  (forall l e, l ∈ Project.mapLayers true w ->
               reprojected_extent tk w l = Returned e -> covers r e) /\
  (forall R,
     (forall l e, l ∈ Project.mapLayers true w ->
                  reprojected_extent tk w l = Returned e -> covers R e) ->
     covers R r).
Proof.
  unfold outcome. rewrite get_common_extent_unfold.
  destruct (Project.mapLayers true w) as [|l0 rest]; [discriminate|].
  intros H.
  match type of H with fst ?t = _ => destruct t as [o w'] eqn:E end.
  simpl in H. subst o.
  apply bind_returned in E as (e0 & w1 & He0 & E).
  pose proof (transform_rectangle_state tk (extent l0) (crs l0) (projectCrs w) w) as Hs.
  rewrite He0 in Hs. simpl in Hs. subst w1.
  apply bind_returned in E as (r' & w2 & Hfold & E). injection E as <- _.
  apply fold_each_extents_inv in Hfold as (es & Hes & ->).
  assert (H0 : reprojected_extent tk w l0 = Returned e0)
    by (unfold reprojected_extent, outcome; now rewrite He0).
  split.
  - intros l e Hl He. apply fold_combine_covers.
    apply elem_of_cons in Hl as [->|Hl];
      [replace e with e0 by congruence; left|]. right.
    apply list_elem_of_lookup in Hl as [i Hi].
    destruct (Forall2_lookup_l _ _ _ _ _ Hes Hi) as (e' & He' & Hr).
    apply list_elem_of_lookup. exists i. congruence.
  - intros R HR. apply fold_combine_least. intros e He.
    apply elem_of_cons in He as [->|He]; [apply (HR l0); [left|exact H0]|].
    apply list_elem_of_lookup in He as [i Hi].
    destruct (Forall2_lookup_r _ _ _ _ _ Hes Hi) as (l & Hl & Hr).
    apply (HR l); [|exact Hr]. right. apply list_elem_of_lookup. eauto.
Qed.

(** X5: the order in which the registry lists the valid layers does not
    matter to [get_common_extent_from_all_layers]: two projects with the
    same valid layers in different orders get rectangles with the same
    bounds. *)
Theorem get_common_extent_order_irrelevant (tk : Toolkit) (w1 w2 : World)
    (r1 r2 : QgsRectangle) :
  Project.mapLayers true w1 ≡ₚ Project.mapLayers true w2 ->
  (forall l, reprojected_extent tk w1 l = reprojected_extent tk w2 l) ->
  outcome (get_common_extent_from_all_layers tk) w1 = Returned (Some r1) ->
  outcome (get_common_extent_from_all_layers tk) w2 = Returned (Some r2) ->
  covers r1 r2 /\ covers r2 r1 /\
  (xMinimum r1 == xMinimum r2)%Q /\ (yMinimum r1 == yMinimum r2)%Q /\
  (xMaximum r1 == xMaximum r2)%Q /\ (yMaximum r1 == yMaximum r2)%Q.
Proof.
  intros Hperm Hsame H1 H2.
  destruct (get_common_extent_returned_least tk w1 r1 H1) as [Hc1 Hl1].
  destruct (get_common_extent_returned_least tk w2 r2 H2) as [Hc2 Hl2].
  assert (H12 : covers r1 r2).
  { apply Hl2. intros l e Hl He. apply (Hc1 l); [now rewrite Hperm|now rewrite Hsame]. }
  assert (H21 : covers r2 r1).
  { apply Hl1. intros l e Hl He. apply (Hc2 l); [now rewrite <- Hperm|now rewrite <- Hsame]. }
  split; [exact H12|]. split; [exact H21|].
  destruct H12 as (A1 & A2 & A3 & A4), H21 as (B1 & B2 & B3 & B4).
  repeat split; apply Qle_antisym; assumption.
Qed.

Lemma get_common_extent_order_irrelevant_witness :
  Project.mapLayers true Examples.two_layer_world = [Examples.roads; Examples.lakes] /\
  Project.mapLayers true Examples.swapped_world = [Examples.lakes; Examples.roads] /\
  outcome (get_common_extent_from_all_layers Examples.toolkit) Examples.two_layer_world
    = Returned (Some (Rect 1 1 7 8)) /\
  outcome (get_common_extent_from_all_layers Examples.toolkit) Examples.swapped_world
    = Returned (Some (Rect 1 1 7 8)) /\
  covers (Rect 1 1 7 8) (Rect 1 1 7 8).
Proof.
  split; [reflexivity|]. split; [reflexivity|].
  split; [reflexivity|]. split; [reflexivity|].
  destruct (get_common_extent_order_irrelevant Examples.toolkit
              Examples.two_layer_world Examples.swapped_world
              (Rect 1 1 7 8) (Rect 1 1 7 8)) as [H _].
  - change (Project.mapLayers true Examples.two_layer_world)
      with [Examples.roads; Examples.lakes].
    change (Project.mapLayers true Examples.swapped_world)
      with [Examples.lakes; Examples.roads].
    apply Permutation_swap.
  - intros l. unfold reprojected_extent, outcome, transform_rectangle. simpl.
    destruct (crs_eqb (crs l) Examples.wgs84); reflexivity.
  - reflexivity.
  - reflexivity.
  - exact H.
Defined.

(** ** Further properties: event-pump waiter *)







(** ** Further properties: fixture cleanup guard *)

(** X8: what [_set_layer_owner_to_project] leaves alone: a value that is no
    layer, a layer wrapper whose object is gone (its id is not even asked
    for), and a live layer that is registered and valid.  In each case it
    returns and the world is as before. *)
Theorem set_layer_owner_leaves_alone (v : FixtureValue) (w : World) :
  (v = OtherValue \/
   (exists lid, v = LayerValue lid /\ objects w !! lid = None) \/
   (exists lid l, v = LayerValue lid /\ objects w !! lid = Some l /\
                  isValid l = true /\ lid ∈ mapLayerIds w)) ->
  _set_layer_owner_to_project v w = (Returned tt, w).
Proof.
  intros [->|[(lid & -> & Hgone)|(lid & l & -> & Hl & Hvalid & Hreg)]].
  - reflexivity.
  - rewrite set_layer_owner_unfold, Hgone.
    rewrite bool_decide_eq_false_2; [reflexivity|]. intros [? ?]. discriminate.
  - rewrite set_layer_owner_unfold.
    rewrite (bool_decide_eq_true_2 (lid ∈ Project.mapLayers_keys true w)).
    + now rewrite andb_false_r.
    + apply elem_of_mapLayers_keys. split; [exact Hreg|]. exists l. auto.
Qed.

Lemma set_layer_owner_leaves_alone_witness :
  _set_layer_owner_to_project (LayerValue "roads_1") Examples.two_layer_world
  = (Returned tt, Examples.two_layer_world) /\
  _set_layer_owner_to_project (LayerValue "gone_4") Examples.two_layer_world
  = (Returned tt, Examples.two_layer_world).
Proof.
  split; apply set_layer_owner_leaves_alone.
  - right. right. exists "roads_1", Examples.roads.
    split; [reflexivity|]. split; [reflexivity|]. split; [reflexivity|left].
  - right. left. exists "gone_4". split; reflexivity.
Defined.

Lemma mapLayers_keys_same_objects (w w' : World) :
  objects w' = objects w ->
  (forall x, x ∈ Project.mapLayers_keys true w -> x ∈ mapLayerIds w') ->
  forall x, x ∈ Project.mapLayers_keys true w -> x ∈ Project.mapLayers_keys true w'.
Proof.
  intros Hobj Hids x Hx. pose proof (Hids x Hx) as Hx'.
  apply elem_of_mapLayers_keys in Hx as [_ Hl].
  apply elem_of_mapLayers_keys. rewrite Hobj. auto.
Qed.

(** One cycle keeps the layer objects, the project CRS and the files,
    registers nothing for good and unregisters no valid layer. *)
Lemma set_layer_owner_invariant (v : FixtureValue) (w : World) :
  let w' := exec (_set_layer_owner_to_project v) w in
  objects w' = objects w /\ projectCrs w' = projectCrs w /\ files w' = files w /\
  (forall x, x ∈ mapLayerIds w' -> x ∈ mapLayerIds w) /\
  (forall x, x ∈ Project.mapLayers_keys true w -> x ∈ mapLayerIds w').
Proof.
  assert (Hsame : forall w0 : World,
            w0 = w ->
            objects w0 = objects w /\ projectCrs w0 = projectCrs w /\ files w0 = files w /\
            (forall x, x ∈ mapLayerIds w0 -> x ∈ mapLayerIds w) /\
            (forall x, x ∈ Project.mapLayers_keys true w -> x ∈ mapLayerIds w0)).
  { intros w0 ->. repeat split; auto.
    intros x Hx. now apply elem_of_mapLayers_keys in Hx as [Hx _]. }
  unfold exec. destruct v as [lid|]; [|now apply Hsame].
  rewrite set_layer_owner_unfold.
  destruct (bool_decide (is_Some (objects w !! lid))) eqn:Hlive; [|now apply Hsame].
  destruct (bool_decide (lid ∈ Project.mapLayers_keys true w)) eqn:Hkey;
    [now apply Hsame|].
  apply bool_decide_eq_true_1 in Hlive as [l Hl].
  apply bool_decide_eq_false_1 in Hkey. cbn [andb negb].
  rewrite (bind_eq _ _ _ _ _ (addMapLayer_eq _ _ _ _ Hl)).
  rewrite removeMapLayer_eq. cbn [fst snd].
  match goal with |- context [Project.unregister lid ?w0] =>
    destruct (unregister_frame lid w0) as (-> & _ & -> & -> & _);
    set (w1 := w0) end.
  assert (Hids : forall x, x ∈ mapLayerIds w1 <-> x = lid \/ x ∈ mapLayerIds w).
  { intros x. subst w1. cbv zeta. unfold Project.registered.
    case_bool_decide as Hreg; simpl in *.
    - split; [tauto|]. intros [->|?]; assumption.
    - apply elem_of_registry_insert. }
  assert (Hframe : objects w1 = objects w /\ projectCrs w1 = projectCrs w /\
                   files w1 = files w).
  { subst w1. cbv zeta. destruct (Project.registered lid _); repeat split. }
  destruct Hframe as (-> & -> & ->).
  split; [reflexivity|]. split; [reflexivity|]. split; [reflexivity|].
  split; intros x; rewrite unregister_mapLayerIds, elem_of_filter_other, Hids.
  - intros [Hne [?|?]]; [contradiction|assumption].
  - intros Hx. split; [intros ->; contradiction|].
    right. now apply elem_of_mapLayers_keys in Hx as [Hx _].
Qed.

Lemma ensure_one_invariant (request : FixtureRequest) (n : string) (w : World) :
  let w' := exec (ensure_one request n) w in
  objects w' = objects w /\ projectCrs w' = projectCrs w /\ files w' = files w /\
  (forall x, x ∈ mapLayerIds w' -> x ∈ mapLayerIds w) /\
  (forall x, x ∈ Project.mapLayers_keys true w -> x ∈ mapLayerIds w').
Proof.
  unfold exec, ensure_one, getfixturevalue.
  assert (Hkeys : forall x, x ∈ Project.mapLayers_keys true w -> x ∈ mapLayerIds w)
    by (intros x Hx; now apply elem_of_mapLayers_keys in Hx as [Hx _]).
  destruct (has_layer_keyword n); [|simpl; auto 6].
  destruct (fixturevalue request n) as [v|[]]; simpl; auto 6.
  exact (set_layer_owner_invariant v (log (GetFixtureValue n) w)).
Qed.

(** X9: whatever the fixtures resolve to, and whether it returns or a
    resolution error stops it, [ensure_qgis_layer_fixtures_are_cleaned]
    keeps the layer objects, the project CRS and the files; it leaves no
    layer registered that was not, and it unregisters no layer that was
    registered and valid. *)
Theorem ensure_qgis_layer_fixtures_are_cleaned_invariant
    (request : FixtureRequest) (w : World) :
  let w' := exec (ensure_qgis_layer_fixtures_are_cleaned request) w in
  objects w' = objects w /\ projectCrs w' = projectCrs w /\ files w' = files w /\
  (forall x, x ∈ mapLayerIds w' -> x ∈ mapLayerIds w) /\
  (forall x, x ∈ Project.mapLayers_keys true w -> x ∈ Project.mapLayers_keys true w').
Proof.
  unfold ensure_qgis_layer_fixtures_are_cleaned.
  generalize (fixturenames request) as names. intros names. revert w.
  induction names as [|n names IH]; intros w; simpl.
  - repeat split; auto.
  - pose proof (ensure_one_invariant request n w) as Hstep.
    unfold exec in *. unfold bind.
    destruct (ensure_one request n w) as [[[]|e] w1]; simpl in Hstep;
      destruct Hstep as (Hobj & Hcrs & Hfiles & Hids & Hkeys).
    + destruct (IH w1) as (Hobj' & Hcrs' & Hfiles' & Hids' & Hkeys').
      split; [congruence|]. split; [congruence|]. split; [congruence|].
      split; [auto|]. intros x Hx. apply Hkeys'.
      now apply (mapLayers_keys_same_objects w w1).
    + simpl. split; [exact Hobj|]. split; [exact Hcrs|]. split; [exact Hfiles|].
      split; [exact Hids|]. now apply mapLayers_keys_same_objects.
Qed.

Lemma ensure_qgis_layer_fixtures_are_cleaned_invariant_witness :
  let w' := exec (ensure_qgis_layer_fixtures_are_cleaned Examples.request)
              Examples.pending_world in
  "roads_1" ∈ Project.mapLayers_keys true Examples.pending_world /\
  "roads_1" ∈ Project.mapLayers_keys true w' /\
  ("clone_7" ∈ mapLayerIds w' -> "clone_7" ∈ mapLayerIds Examples.pending_world).
Proof.
  destruct (ensure_qgis_layer_fixtures_are_cleaned_invariant Examples.request
              Examples.pending_world) as (_ & _ & _ & Hids & Hkeys).
  assert (Hr : "roads_1" ∈ Project.mapLayers_keys true Examples.pending_world) by left.
  cbv zeta. split; [exact Hr|]. split; [exact (Hkeys _ Hr)|apply Hids].
Defined.

Lemma for_each_app {A} (xs ys : list A) (body : A -> M unit) (w : World) :
  for_each (xs ++ ys) body w
  = match for_each xs body w with
    | (Returned _, w1) => for_each ys body w1
    | (Raised e, w1) => (Raised e, w1)
    end.
Proof.
  revert w. induction xs as [|x xs IH]; intros w; simpl; [reflexivity|].
  unfold bind. destruct (body x w) as [[[]|e] w1]; [apply IH|reflexivity].
Qed.

(** X10: a layer fixture whose resolution raises anything but the
    never-requested assertion stops [ensure_qgis_layer_fixtures_are_cleaned]:
    the error comes out, and the fixtures after it are not resolved. *)
Theorem ensure_qgis_layer_fixtures_are_cleaned_stops_at_error
    (request : FixtureRequest) (pre post : list string) (n : string) (e : PyError)
    (w : World) :
  fixturenames request = pre ++ n :: post ->
  (forall m e', m ∈ pre -> has_layer_keyword m = true ->
                fixturevalue request m = Raised e' -> e' = AssertionError) ->
  has_layer_keyword n = true ->
  fixturevalue request n = Raised e ->
  e <> AssertionError ->
  outcome (ensure_qgis_layer_fixtures_are_cleaned request) w = Raised e /\
  resolved (calls (exec (ensure_qgis_layer_fixtures_are_cleaned request) w))
  = resolved (calls w) ++ List.filter has_layer_keyword pre ++ [n].
Proof.
  intros Hnames Hpre Hk Hv Hne.
  unfold ensure_qgis_layer_fixtures_are_cleaned, outcome, exec.
  rewrite Hnames, for_each_app.
  destruct (ensure_resolves_keyword_fixtures request pre Hpre w) as [Hout Hres].
  unfold outcome, exec in Hout, Hres.
  destruct (for_each pre (ensure_one request) w) as [o w1]. simpl in Hout, Hres.
  subst o. simpl. unfold bind.
  assert (Hone : ensure_one request n w1 = (Raised e, log (GetFixtureValue n) w1)).
  { unfold ensure_one, getfixturevalue. rewrite Hk, Hv. destruct e; congruence. }
  rewrite Hone. split; [reflexivity|].
  simpl. rewrite resolved_app, Hres, <- app_assoc. reflexivity.
Qed.

Lemma ensure_qgis_layer_fixtures_are_cleaned_stops_at_error_witness :
  outcome (ensure_qgis_layer_fixtures_are_cleaned Examples.broken_request)
    Examples.pending_world = Raised RuntimeError /\
  resolved (calls (exec (ensure_qgis_layer_fixtures_are_cleaned Examples.broken_request)
                     Examples.pending_world))
  = ["raster_fixture"; "broken_layer"].
Proof.
  apply (ensure_qgis_layer_fixtures_are_cleaned_stops_at_error Examples.broken_request
           ["raster_fixture"] ["layer_after"] "broken_layer" RuntimeError
           Examples.pending_world).
  - reflexivity.
  - intros m e' Hm _ Hv. apply list_elem_of_singleton in Hm as ->. discriminate.
  - reflexivity.
  - reflexivity.
  - discriminate.
Defined.

Lemma string_append_assoc (a b c : string) : (a +:+ b) +:+ c = a +:+ (b +:+ c).
Proof.
  induction a as [|x a IH]; [reflexivity|].
  change (String x ((a +:+ b) +:+ c) = String x (a +:+ (b +:+ c))).
  now rewrite IH.
Qed.

Lemma contains_trans (s a b : string) :
  contains a b = true -> contains s a = true -> contains s b = true.
Proof.
  rewrite !contains_spec. intros (p1 & q1 & ->) (p2 & q2 & ->).
  exists (p2 +:+ p1), (q1 +:+ q2).
  now rewrite !string_append_assoc.
Qed.

(** X11: the keyword "raster" never decides the name test on its own: a
    name that contains it contains "rast", so the test accepts exactly the
    names whose lower-cased form contains one of "layer", "lyr", "rast",
    "tif". *)
Theorem has_layer_keyword_raster_redundant (fixture_name : string) :
  has_layer_keyword fixture_name
  = existsb (fun k => contains (lower fixture_name) k) ["layer"; "lyr"; "rast"; "tif"].
Proof.
  unfold has_layer_keyword, LAYER_KEYWORDS. cbn [existsb].
  destruct (contains (lower fixture_name) "raster") eqn:E; [|reflexivity].
  rewrite (contains_trans (lower fixture_name) "raster" "rast" eq_refl E).
  now rewrite !orb_true_r.
Qed.

(** ** Further properties: style and position copier *)

(** With both layers alive, [copy_layer_style_and_position] first copies,
    then turns to the tree. *)
Lemma copy_layer_style_and_position_split (tk : Toolkit) (w : World)
    (layer1 layer2 tmp_path : string) (l1 l2 : QgsMapLayer) :
  objects w !! layer1 = Some l1 ->
  objects w !! layer2 = Some l2 ->
  layer1 <> layer2 ->
  copy_layer_style_and_position tk layer1 layer2 tmp_path w
  = place_after_namesake layer1 layer2 (copied tk layer1 layer2 tmp_path l1 l2 w).
Proof.
  intros H1 H2 Hne.
  unfold copy_layer_style_and_position.
  rewrite (bind_eq _ _ _ _ _ (layer_id_eq _ _ _ H1)).
  rewrite (bind_eq _ _ _ _ _ (saveNamedStyle_eq tk _ _ _ _ H1)).
  fold (style_file tmp_path layer1). fold (place_after_namesake layer1 layer2).
  unfold copied. fold (style_file tmp_path layer1).
  destruct (saveNamedStyle_succeeds tk w l1 (style_file tmp_path layer1)).
  - erewrite bind_eq
      by (eapply loadNamedStyle_eq; simpl; [exact H2|apply lookup_insert_eq]).
    erewrite bind_eq by (eapply deref_eq; find_object).
    erewrite bind_eq by (eapply call_setter_eq; find_object).
    erewrite bind_eq by (eapply deref_eq; find_object).
    erewrite bind_eq by (eapply call_setter_eq; find_object).
    erewrite bind_eq by (eapply deref_eq; find_object).
    simpl. rewrite !insert_insert_eq.
    destruct (isValid l2).
    + erewrite bind_eq by (eapply addMapLayer_eq; find_object).
      reflexivity.
    + reflexivity.
  - unfold bind at 1, ret at 1.
    erewrite bind_eq by (eapply deref_eq; exact H1).
    erewrite bind_eq by (eapply call_setter_eq; exact H2).
    erewrite bind_eq by (eapply deref_eq; find_object).
    erewrite bind_eq by (eapply call_setter_eq; find_object).
    erewrite bind_eq by (eapply deref_eq; find_object).
    simpl. rewrite !insert_insert_eq.
    destruct (isValid l2).
    + erewrite bind_eq by (eapply addMapLayer_eq; find_object).
      reflexivity.
    + reflexivity.
Qed.



Lemma copied_calls tk layer1 layer2 tmp_path l1 l2 w :
  calls (copied tk layer1 layer2 tmp_path l1 l2 w)
  = calls w ++ (if isValid l2 then [AddMapLayer layer2 false] else []).
Proof.
  unfold copied.
  destruct (saveNamedStyle_succeeds tk w l1 _), (isValid l2); simpl;
    rewrite ?app_nil_r; try reflexivity;
    match goal with |- context [Project.registered ?a ?b] =>
      destruct (Project.registered a b) end; reflexivity.
Qed.

Lemma copied_mapLayerIds tk layer1 layer2 tmp_path l1 l2 w (x : string) :
  x ∈ mapLayerIds (copied tk layer1 layer2 tmp_path l1 l2 w)
  <-> x ∈ mapLayerIds w \/ (x = layer2 /\ isValid l2 = true).
Proof.
  destruct (isValid l2) eqn:Hv.
  - rewrite (copied_valid tk layer1 layer2 tmp_path l1 l2 w Hv). tauto.
  - destruct (copied_invalid tk layer1 layer2 tmp_path l1 l2 w Hv) as [-> _].
    split; [tauto|]. intros [?|[_ ?]]; [assumption|discriminate].
Qed.

(** X12: a source that has no node in the layer tree makes
    [copy_layer_style_and_position] raise, but only after the copying is
    done and not undone: the target has the source's metadata and name (and
    style, if it could be saved), and a valid target is registered. *)
Theorem copy_layer_style_and_position_without_node (tk : Toolkit) (w : World)
    (layer1 layer2 tmp_path : string) (l1 l2 : QgsMapLayer) :
  objects w !! layer1 = Some l1 ->
  objects w !! layer2 = Some l2 ->
  layer1 <> layer2 ->
  Project.findLayer layer1 (layerTreeRoot w) = None ->
  let w' := exec (copy_layer_style_and_position tk layer1 layer2 tmp_path) w in
  outcome (copy_layer_style_and_position tk layer1 layer2 tmp_path) w
    = Raised AttributeError /\
  w' = copied tk layer1 layer2 tmp_path l1 l2 w /\
  (exists l2', objects w' !! layer2 = Some l2' /\
               metadata l2' = metadata l1 /\ name l2' = name l1) /\
  (isValid l2 = true -> layer2 ∈ mapLayerIds w') /\
  layerTreeRoot w' = layerTreeRoot w.
Proof.
  intros H1 H2 Hne Hnone w'. subst w'. unfold outcome, exec.
  rewrite (copy_layer_style_and_position_split tk w _ _ _ _ _ H1 H2 Hne).
  assert (Hplace : place_after_namesake layer1 layer2
                     (copied tk layer1 layer2 tmp_path l1 l2 w)
                   = (Raised AttributeError, copied tk layer1 layer2 tmp_path l1 l2 w)).
  { unfold place_after_namesake, bind, get.
    now rewrite copied_layerTreeRoot, Hnone. }
  rewrite Hplace. cbn [fst snd]. split; [reflexivity|]. split; [reflexivity|].
  split; [|split].
  - eexists. rewrite copied_objects. split; [apply lookup_insert_eq|].
    split; reflexivity.
  - intros Hv. apply copied_mapLayerIds. auto.
  - apply copied_layerTreeRoot.
Qed.

Lemma copy_layer_style_and_position_without_node_witness :
  Project.findLayer "roads_1" (layerTreeRoot Examples.detached_world) = None /\
  outcome (copy_layer_style_and_position Examples.toolkit "roads_1" "clone_7" "/tmp")
    Examples.detached_world = Raised AttributeError /\
  "clone_7" ∈ mapLayerIds
    (exec (copy_layer_style_and_position Examples.toolkit "roads_1" "clone_7" "/tmp")
       Examples.detached_world).
Proof.
  split; [reflexivity|].
  destruct (copy_layer_style_and_position_without_node Examples.toolkit
              Examples.detached_world "roads_1" "clone_7" "/tmp"
              Examples.roads Examples.clone)
    as (Hout & _ & _ & Hreg & _).
  - reflexivity.
  - reflexivity.
  - discriminate.
  - reflexivity.
  - split; [exact Hout|]. now apply Hreg.
Defined.





(** ** Further properties: layer replacer *)

Lemma layer_ids_live (layers : list string) :
  forall w ids w1, layer_ids layers w = (Returned ids, w1) ->
    forall layer, layer ∈ layers -> is_Some (objects w !! layer).
Proof.
  induction layers as [|i layers IH]; intros w ids w1 H layer Hin; simpl in H.
  - now apply elem_of_nil in Hin.
  - apply bind_returned in H as (i' & w2 & Hi & H).
    unfold Project.layer_id in Hi. apply bind_returned in Hi as (l & w3 & Hd & Hi).
    unfold Project.deref in Hd. destruct (objects w !! i) as [l0|] eqn:Hl; [|discriminate].
    injection Hd as <- <-. injection Hi as <- <-.
    apply bind_returned in H as (ids' & w4 & Hids & H).
    apply elem_of_cons in Hin as [->|Hin]; [now rewrite Hl|].
    exact (IH _ _ _ Hids layer Hin).
Qed.

(** X15: whenever [replace_layers_with_reprojected_clones] returns, its
    last call on the project was the removal of all its input layers, in
    the order given, and none of them is registered any more. *)
Theorem replace_layers_with_reprojected_clones_removes_inputs
    (tk : Toolkit) (layers : list string) (output_path : string) (w : World) :
  outcome (replace_layers_with_reprojected_clones tk layers output_path) w = Returned tt ->
  let w' := exec (replace_layers_with_reprojected_clones tk layers output_path) w in
  (exists earlier, calls w' = earlier ++ [RemoveMapLayers layers]) /\
  (forall layer, layer ∈ layers -> layer ∉ mapLayerIds w') /\
  (forall layer, layer ∈ layers -> is_Some (objects w' !! layer)).
Proof.
  unfold outcome, exec. intros Hout.
  destruct (replace_layers_with_reprojected_clones tk layers output_path w) as [o w'] eqn:E.
  simpl in *. subst o. unfold replace_layers_with_reprojected_clones in E.
  apply bind_returned in E as (vector_layers & w1 & _ & E).
  apply bind_returned in E as (raster_layers & w2 & _ & E).
  apply bind_returned in E as (w3 & w4 & _ & E).
  apply bind_returned in E as ([] & w5 & _ & E).
  apply bind_returned in E as ([] & w6 & _ & E).
  apply bind_returned in E as (ids & w7 & Hids & E).
  pose proof (layer_ids_live _ _ _ _ Hids) as Hlive.
  apply layer_ids_returned in Hids as [-> ->].
  rewrite removeMapLayers_eq in E. injection E as <-.
  destruct (removed_frame layers (log (RemoveMapLayers layers) w6)) as [Hobj Hcalls].
  split; [|split].
  - exists (calls w6). now rewrite Hcalls.
  - intros layer Hin. rewrite removed_mapLayerIds. tauto.
  - intros layer Hin. rewrite Hobj. now apply Hlive.
Qed.

Lemma replace_layers_with_reprojected_clones_removes_inputs_witness :
  let run := replace_layers_with_reprojected_clones Examples.toolkit
               ["roads_1"; "codes_3"] "/tmp" in
  outcome run Examples.table_world = Returned tt /\
  ("codes_3" ∉ mapLayerIds (exec run Examples.table_world)) /\
  is_Some (objects (exec run Examples.table_world) !! "roads_1").
Proof.
  cbv zeta.
  destruct (replace_layers_with_reprojected_clones_removes_inputs Examples.toolkit
              ["roads_1"; "codes_3"] "/tmp" Examples.table_world)
    as (_ & Hgone & Hlive); [reflexivity|].
  split; [reflexivity|]. split.
  - apply Hgone. right. left.
  - apply Hlive. left.
Defined.













(** The second half of a single replacement: the clone, alive under its own
    id, receives style and position of a registered original, which is then
    removed from the project. *)
Lemma clone_swapped (tk : Toolkit) (w : World) (layer output_path : string)
    (l out : QgsMapLayer) (p : list nat) (k : nat) (children : list QgsLayerTreeNode) :
  objects w !! layer = Some l ->
  layer ∈ mapLayerIds w ->
  Project.findLayer layer (layerTreeRoot w) = Some (p, k) ->
  Project.children_at p (layerTreeRoot w) = Some children ->
  (forall j c, k < j -> children !! j = Some c -> Project.node_name w c <> name l) ->
  id out <> layer ->
  Project.findLayer (id out) (layerTreeRoot w) = None ->
  let out' := stamped (projectCrs w) out in
  let w_b := with_objects (<[id out := out']> (objects w)) w in
  let node := QgsLayerTreeLayer (id out) (name l) in
  exists w_mid,
    copy_layer_style_and_position tk layer (id out) output_path w_b = (Returned tt, w_mid) /\
    objects w_mid !! layer = Some l /\
    let w' := exec (Project.removeMapLayers [layer]) w_mid in
    objects w' !! id out
    = Some (styled (saveNamedStyle_succeeds tk w_b l (style_file output_path layer)) l out') /\
    projectCrs w' = projectCrs w /\
    (forall x, x ∈ mapLayerIds w'
               <-> x <> layer /\ (x ∈ mapLayerIds w \/ (x = id out /\ isValid out = true))) /\
    calls w' = (calls w ++ (if isValid out then [AddMapLayer (id out) false] else []))
               ++ [RemoveMapLayers [layer]] /\
    Project.children_at p (layerTreeRoot w')
    = Some (take k children ++ node :: drop (k + 1) children).
Proof.
  intros Hl Hreg Hfind Hc Huniq Hne Hnone out' w_b node.
  destruct (stamped_frame (projectCrs w) out) as (Hid' & Hvalid' & Htype').
  assert (Hlb : objects w_b !! layer = Some l) by (subst w_b; find_object).
  assert (Hob : objects w_b !! id out = Some out') by (subst w_b; find_object).
  destruct (copy_layer_style_and_position_effect tk w_b layer (id out) output_path
              l out' p k Hlb Hob (not_eq_sym Hne) Hfind Hnone)
    as (children' & index & stored & Hc' & Hk & Hlast & Hle & Hsame & Hcopy & Htree).
  change (layerTreeRoot w_b) with (layerTreeRoot w) in *.
  rewrite Hc in Hc'. injection Hc' as <-.
  assert (Hindex : index = k).
  { apply Hsame. intros j c Hj Hjc.
    rewrite (node_name_fresh w_b w (id out) out' p children eq_refl Hnone Hc j c Hjc).
    eauto. }
  subst index.
  set (w_mid := with_layerTreeRoot
                  (Project.update_at p (Project.insertChildNode (k + 1) node) (layerTreeRoot w))
                  (copied tk layer (id out) output_path l out' w_b)) in *.
  assert (Hmid_obj : objects w_mid
                     = <[id out := styled (saveNamedStyle_succeeds tk w_b l
                                             (style_file output_path layer)) l out']>
                         (objects w_b)).
  { subst w_mid. simpl. now rewrite copied_objects. }
  assert (Hlm : objects w_mid !! layer = Some l).
  { rewrite Hmid_obj. subst w_b. find_object. }
  assert (Hmid_ids : forall x, x ∈ mapLayerIds w_mid
                               <-> x ∈ mapLayerIds w \/ (x = id out /\ isValid out = true)).
  { intros x. replace (isValid out) with (isValid out') by exact Hvalid'.
    exact (copied_mapLayerIds tk layer (id out) output_path l out' w_b x). }
  assert (Hmid_tree : Project.children_at p (layerTreeRoot w_mid)
                      = Some (take (k + 1) children ++ node :: drop (k + 1) children)).
  { unfold exec in Htree. rewrite Hcopy in Htree. exact Htree. }
  exists w_mid. split; [exact Hcopy|]. split; [exact Hlm|]. cbv zeta.
  assert (Ew' : exec (Project.removeMapLayers [layer]) w_mid
                = Project.unregister layer (log (RemoveMapLayers [layer]) w_mid))
    by reflexivity.
  rewrite Ew'.
  destruct (unregister_frame layer (log (RemoveMapLayers [layer]) w_mid))
    as (Hobj & Hcalls & Hpcrs & _).
  split; [|split; [|split; [|split]]].
  - rewrite Hobj.
    change (objects (log (RemoveMapLayers [layer]) w_mid)) with (objects w_mid).
    rewrite Hmid_obj. apply lookup_insert_eq.
  - rewrite Hpcrs.
    change (projectCrs (log (RemoveMapLayers [layer]) w_mid))
      with (projectCrs (copied tk layer (id out) output_path l out' w_b)).
    now rewrite copied_projectCrs.
  - intros x. rewrite unregister_mapLayerIds, elem_of_filter_other.
    change (mapLayerIds (log (RemoveMapLayers [layer]) w_mid)) with (mapLayerIds w_mid).
    now rewrite Hmid_ids.
  - rewrite Hcalls.
    change (calls (log (RemoveMapLayers [layer]) w_mid))
      with (calls (copied tk layer (id out) output_path l out' w_b)
            ++ [RemoveMapLayers [layer]]).
    rewrite copied_calls.
    replace (isValid out') with (isValid out) by (symmetry; exact Hvalid').
    reflexivity.
  - assert (Hk' : k < length children) by (eapply lookup_lt_Some; eassumption).
    assert (Hfind' : Project.findLayer layer (layerTreeRoot w_mid) = Some (p, k)).
    { apply findLayer_below_update_at; [exact Hfind|].
      intros cs i Hi Hcs. rewrite Hc in Hcs. injection Hcs as <-.
      apply insertChildNode_before; lia. }
    rewrite (unregister_tree layer (log (RemoveMapLayers [layer]) w_mid) p k);
      [|apply Hmid_ids; now left|exact Hfind'].
    change (layerTreeRoot (log (RemoveMapLayers [layer]) w_mid))
      with (layerTreeRoot w_mid).
    rewrite (children_at_update_at _ _ _ _ Hmid_tree).
    now rewrite remove_after_insert.
Qed.




(** X18: when the reprojection of a registered spatial vector layer yields
    a layer that is not valid, [replace_layers_with_reprojected_clones]
    still returns: nothing is added to the project, the original is
    unregistered, so the project is one layer short, and the tree holds, at
    the original's place, a node for the output that is not registered. *)
Theorem replace_layers_with_reprojected_clones_invalid_output
    (tk : Toolkit) (w : World) (layer output_path : string) (l out : QgsMapLayer)
    (p : list nat) (k : nat) (children : list QgsLayerTreeNode) :
  objects w !! layer = Some l ->
  layerType l = VectorLayer -> isSpatial l = true ->
  layer ∈ mapLayerIds w ->
  Project.findLayer layer (layerTreeRoot w) = Some (p, k) ->
  Project.children_at p (layerTreeRoot w) = Some children ->
  (forall j c, k < j -> children !! j = Some c -> Project.node_name w c <> name l) ->
  reprojectlayer tk w l (projectCrs w) = Some out ->
  id out <> layer ->
  id out ∉ mapLayerIds w ->
  Project.findLayer (id out) (layerTreeRoot w) = None ->
  isValid out = false ->
  let w' := exec (replace_layers_with_reprojected_clones tk [layer] output_path) w in
  outcome (replace_layers_with_reprojected_clones tk [layer] output_path) w = Returned tt /\
  calls w' = calls w ++ [RemoveMapLayers [layer]] /\
  (forall x, x ∈ mapLayerIds w' <-> x <> layer /\ x ∈ mapLayerIds w) /\
  (id out ∉ mapLayerIds w') /\
  Project.children_at p (layerTreeRoot w')
  = Some (take k children ++ QgsLayerTreeLayer (id out) (name l) :: drop (k + 1) children).
Proof.
  intros Hl Hvec Hsp Hreg Hfind Hc Huniq Hrun Hne Hfresh Hnone Hinvalid w'.
  destruct (clone_swapped tk w layer output_path l out p k children
              Hl Hreg Hfind Hc Huniq Hne Hnone)
    as (w_mid & Hcopy & Hlm & _ & _ & Hids & Hcalls & Htree).
  pose proof (replace_single_vector_run tk w layer output_path l out p k
                Hl Hvec Hsp Hfind Hrun Hne w_mid Hcopy Hlm) as Hrep.
  assert (Ew' : w' = exec (Project.removeMapLayers [layer]) w_mid).
  { subst w'. unfold exec at 1. now rewrite Hrep. }
  split; [unfold outcome; now rewrite Hrep|].
  rewrite Ew'. rewrite Hinvalid in Hids, Hcalls.
  assert (Hreg' : forall x, x ∈ mapLayerIds (exec (Project.removeMapLayers [layer]) w_mid)
                            <-> x <> layer /\ x ∈ mapLayerIds w).
  { intros x. rewrite Hids. intuition discriminate. }
  split; [now rewrite Hcalls, app_nil_r|].
  split; [exact Hreg'|]. split; [|exact Htree].
  rewrite Hreg'. tauto.
Qed.

Lemma replace_layers_with_reprojected_clones_invalid_output_witness :
  let run := replace_layers_with_reprojected_clones Examples.spoiling_toolkit
               ["roads_1"] "/tmp" in
  outcome run Examples.two_layer_world = Returned tt /\
  (forall x, x ∈ mapLayerIds (exec run Examples.two_layer_world) <-> x = "lakes_2") /\
  Project.children_at [] (layerTreeRoot (exec run Examples.two_layer_world))
  = Some [QgsLayerTreeLayer "roads_1_reprojected" "roads"; QgsLayerTreeLayer "lakes_2" "lakes"].
Proof.
  cbv zeta.
  destruct (replace_layers_with_reprojected_clones_invalid_output Examples.spoiling_toolkit
              Examples.two_layer_world "roads_1" "/tmp" Examples.roads
              {| id := "roads_1_reprojected"; name := "Reprojected";
                 layerType := VectorLayer; crs := Examples.wgs84;
                 extent := Examples.unit_square; source := "missing.gpkg";
                 style := "default"; metadata := []; isValid := false; isSpatial := true |}
              [] 0 (layerTreeRoot Examples.two_layer_world))
    as (Hout & _ & Hids & _ & Htree).
  - reflexivity.
  - reflexivity.
  - reflexivity.
  - left.
  - reflexivity.
  - reflexivity.
  - intros [|[|[|j]]] c Hj Hc; try lia; simpl in Hc; try discriminate.
    injection Hc as <-. vm_compute. discriminate.
  - reflexivity.
  - discriminate.
  - intros H. apply elem_of_cons in H as [H|H]; [discriminate|].
    apply elem_of_cons in H as [H|H]; [discriminate|]. now apply elem_of_nil in H.
  - reflexivity.
  - reflexivity.
  - split; [exact Hout|]. split; [|exact Htree].
    intros x. rewrite Hids. split.
    + intros [Hx H]. apply elem_of_cons in H as [H|H]; [contradiction|].
      apply elem_of_cons in H as [H|H]; [exact H|]. now apply elem_of_nil in H.
    + intros ->. split; [discriminate|]. right. left.
Defined.

(** ** Further properties: CRS election *)

Lemma mismatches_and_votes (c : QgsCoordinateReferenceSystem) (ls : list QgsMapLayer) :
  length (List.filter (fun l => isSpatial l && negb (crs_eqb (crs l) c)) ls)
  + occurrences (authid c) (List.map (fun l => authid (crs l)) (List.filter isSpatial ls))
  = length (List.filter isSpatial ls).
Proof.
  induction ls as [|l ls IH]; [reflexivity|]. simpl.
  destruct (isSpatial l); simpl; [|exact IH].
  unfold crs_eqb at 1. destruct (String.eqb (authid (crs l)) (authid c)); simpl; lia.
Qed.

Lemma elected_crs_most_frequent (w : World) (b : string) :
  occurrences b (spatial_authids w)
  <= occurrences (authid (elected_crs w)) (spatial_authids w).
Proof.
  unfold elected_crs.
  destruct (Counter (spatial_authids w)) as [|first rest] eqn:HC.
  - rewrite Counter_uniq in HC. apply map_eq_nil in HC.
    destruct (spatial_authids w) as [|x xs]; [reflexivity|].
    assert (Hx : x ∈ uniq (x :: xs)) by (apply elem_of_uniq; left).
    rewrite HC in Hx. now apply elem_of_nil in Hx.
  - destruct (Counter_most_common _ _ _ HC) as [Hmax _]. exact (Hmax b).
Qed.

(** X19: the CRS [set_map_crs_based_on_layers] sets is one that leaves the
    fewest registered spatial layers in another CRS: no other choice of
    project CRS would leave fewer layers to reproject. *)
Theorem set_map_crs_based_on_layers_fewest_mismatches
    (w : World) (c : QgsCoordinateReferenceSystem) :
  let w' := exec set_map_crs_based_on_layers w in
  spatial_mismatches (projectCrs w') w' <= spatial_mismatches c w'.
Proof.
  cbv zeta. unfold exec. rewrite set_map_crs_based_on_layers_eq. cbn [snd].
  unfold spatial_mismatches.
  change (Project.mapLayers false
            (with_projectCrs (elected_crs w) (log (SetCrs (elected_crs w)) w)))
    with (Project.mapLayers false w).
  change (projectCrs (with_projectCrs (elected_crs w) (log (SetCrs (elected_crs w)) w)))
    with (elected_crs w).
  pose proof (mismatches_and_votes (elected_crs w) (Project.mapLayers false w)) as He.
  pose proof (mismatches_and_votes c (Project.mapLayers false w)) as Hc.
  pose proof (elected_crs_most_frequent w (authid c)) as Hmax.
  unfold spatial_authids in Hmax. lia.
Qed.
